(** * SecureShare: share-link lifecycle and download authorization

    A shallow embedding of the database functions of the SecureShare
    migrations ([get_share_link_by_token], [log_download]) and of the
    [download-file] edge function, followed by the properties that the
    system description states about them.

    Conventions.
    - A table is the list of its rows, in storage order.
    - [uuid] values are numbers; [gen_random_uuid()] is embedded as an
      allocator that returns a value not yet used as a key of the table
      the row goes into.
    - [timestamptz] values are microseconds since the epoch, the resolution
      PostgreSQL stores; [now()] is the start time of the transaction and
      is one value for the whole of a function call.
    - [INTEGER] columns hold values of [Z]; [current_downloads + 1] is
      PostgreSQL's integer addition, which raises [integer out of range]
      instead of wrapping.  [COUNT] is the length of the filtered table; the
      function's [integer] variables receive it as it is, which is what
      PostgreSQL does up to 2147483647 matching rows.
    - An [inet] value is its canonical text, so that equality of addresses
      is equality of strings.
    - A PL/pgSQL function is a computation over the database that either
      returns or raises; a call of it runs as one transaction, so a raise
      undoes every write the body had made ([transaction]). *)

From Stdlib Require Import ZArith NArith List String Ascii Bool Lia.
From Stdlib Require Import Sorted Permutation DecimalString.
Import ListNotations.

Open Scope string_scope.
Open Scope Z_scope.

(** ** Schema *)

Definition uuid := N.
Definition timestamptz := Z.
Definition inet := string.

(** [CREATE TABLE public.files]. *)
Record files_row := mk_files_row {
  f_id : uuid;
  f_user_id : uuid;
  f_filename : string;
  f_original_filename : string;
  f_file_size : Z;
  f_content_type : string;
  f_storage_path : string;
  f_is_encrypted : bool;
  f_created_at : timestamptz;
  f_updated_at : timestamptz
}.

(** [CREATE TABLE public.share_links]; [expires_at], [max_downloads] and
    [password_hash] are nullable. *)
Record share_links_row := mk_share_links_row {
  sl_id : uuid;
  sl_file_id : uuid;
  sl_token : string;
  sl_expires_at : option timestamptz;
  sl_max_downloads : option Z;
  sl_current_downloads : Z;
  sl_password_hash : option string;
  sl_is_active : bool;
  sl_created_at : timestamptz;
  sl_updated_at : timestamptz
}.

(** [CREATE TABLE public.download_logs]. *)
Record download_logs_row := mk_download_logs_row {
  dl_id : uuid;
  dl_share_link_id : uuid;
  dl_ip_address : option inet;
  dl_user_agent : option string;
  dl_downloaded_at : timestamptz
}.

(** [CREATE TABLE public.download_attempts]. *)
Record download_attempts_row := mk_download_attempts_row {
  da_id : uuid;
  da_ip_address : inet;
  da_token : string;
  da_attempted_at : timestamptz;
  da_success : bool
}.

Record db := mk_db {
  files : list files_row;
  share_links : list share_links_row;
  download_logs : list download_logs_row;
  download_attempts : list download_attempts_row
}.

Definition with_share_links (d : db) (l : list share_links_row) : db :=
  mk_db (files d) l (download_logs d) (download_attempts d).

Definition with_download_logs (d : db) (l : list download_logs_row) : db :=
  mk_db (files d) (share_links d) l (download_attempts d).

Definition with_download_attempts (d : db) (l : list download_attempts_row) : db :=
  mk_db (files d) (share_links d) (download_logs d) l.

(** [gen_random_uuid()]: a key that no row of the table carries yet. *)
Definition gen_random_uuid (used : list uuid) : uuid :=
  N.succ (fold_right N.max 0%N used).

(** ** PostgreSQL integers *)

(** The largest [INTEGER]. *)
Definition int4_max : Z := 2147483647.

(** ** PL/pgSQL computations *)

Inductive outcome (A : Type) : Type :=
| Returned (a : A)
| Raised (message : string).

Arguments Returned {A} a.
Arguments Raised {A} message.

Definition plpgsql (A : Type) : Type := db -> outcome A * db.

Definition ret {A} (a : A) : plpgsql A := fun d => (Returned a, d).

Definition raise_exception {A} (message : string) : plpgsql A :=
  fun d => (Raised message, d).

Definition bind {A B} (m : plpgsql A) (k : A -> plpgsql B) : plpgsql B :=
  fun d =>
    match m d with
    | (Returned a, d') => k a d'
    | (Raised e, d') => (Raised e, d')
    end.

Definition query {A} (q : db -> A) : plpgsql A := fun d => (Returned (q d), d).

Declare Scope plpgsql_scope.
Delimit Scope plpgsql_scope with plpgsql.

Notation "x <- m ;; k" := (bind m (fun x => k))
  (at level 61, m at next level, right associativity) : plpgsql_scope.
Notation "m ;; k" := (bind m (fun _ => k))
  (at level 61, right associativity) : plpgsql_scope.

(** A call of a function from a client is one transaction: when the body
    raises, the database is the one the call started from. *)
Definition transaction {A} (body : plpgsql A) : plpgsql A :=
  fun d =>
    match body d with
    | (Returned a, d') => (Returned a, d')
    | (Raised e, _) => (Raised e, d)
    end.

(** ** Share-link usability

    [is_active = true AND (expires_at IS NULL OR expires_at > now())
     AND (max_downloads IS NULL OR current_downloads < max_downloads)] *)

Definition not_expired (now : timestamptz) (sl : share_links_row) : bool :=
  match sl_expires_at sl with
  | None => true
  | Some e => now <? e
  end.

Definition under_limit (sl : share_links_row) : bool :=
  match sl_max_downloads sl with
  | None => true
  | Some m => sl_current_downloads sl <? m
  end.

Definition usable (now : timestamptz) (sl : share_links_row) : bool :=
  Bool.eqb (sl_is_active sl) true && not_expired now sl && under_limit sl.

(** ** [log_download(link_token, user_agent_text, ip_addr)] *)

(** [interval '1 hour'] in microseconds. *)
Definition one_hour : Z := 3600000000.

Definition ip_rate_limit_message : string :=
  "Rate limit exceeded. Too many download attempts from this IP address.".

Definition token_rate_limit_message : string :=
  "Too many failed attempts for this link. Please try again later.".

Definition invalid_link_message : string := "Invalid or expired share link".

Definition integer_out_of_range : string := "integer out of range".

(** [SELECT COUNT( * ) FROM download_attempts
     WHERE ip_address = ip_addr AND attempted_at > now() - interval '1 hour'] *)
Definition count_recent_attempts (now : timestamptz) (ip_addr : inet) (d : db) : Z :=
  Z.of_nat (List.length (filter
    (fun a => String.eqb (da_ip_address a) ip_addr
              && (now - one_hour <? da_attempted_at a))
    (download_attempts d))).

(** [SELECT COUNT( * ) FROM download_attempts
     WHERE token = link_token AND success = false
       AND attempted_at > now() - interval '1 hour'] *)
Definition count_recent_failures (now : timestamptz) (link_token : string) (d : db) : Z :=
  Z.of_nat (List.length (filter
    (fun a => String.eqb (da_token a) link_token
              && Bool.eqb (da_success a) false
              && (now - one_hour <? da_attempted_at a))
    (download_attempts d))).

(** [SELECT id INTO link_id FROM share_links WHERE token = link_token AND ...]:
    the first matching row, [NULL] when there is none. *)
Definition select_link_id (now : timestamptz) (link_token : string) (d : db) : option uuid :=
  option_map sl_id
    (find (fun sl => String.eqb (sl_token sl) link_token && usable now sl)
          (share_links d)).

(** [INSERT INTO download_attempts (ip_address, token, success) VALUES ...];
    [id] and [attempted_at] take their column defaults. *)
Definition insert_download_attempt (now : timestamptz) (ip_addr : inet)
    (link_token : string) (success : bool) : plpgsql unit :=
  fun d =>
    let row := mk_download_attempts_row
                 (gen_random_uuid (map da_id (download_attempts d)))
                 ip_addr link_token now success in
    (Returned tt, with_download_attempts d (download_attempts d ++ [row])).

(** [INSERT INTO download_logs (share_link_id, user_agent, ip_address)
     VALUES ... RETURNING id]. *)
Definition insert_download_log (now : timestamptz) (link_id : uuid)
    (user_agent : option string) (ip_addr : option inet) : plpgsql uuid :=
  fun d =>
    let new_id := gen_random_uuid (map dl_id (download_logs d)) in
    let row := mk_download_logs_row new_id link_id ip_addr user_agent now in
    (Returned new_id, with_download_logs d (download_logs d ++ [row])).

(** The row an [UPDATE ... SET current_downloads = current_downloads + 1]
    writes; the [update_share_links_updated_at] trigger sets [updated_at]
    to [now()] before the row is stored. *)
Definition increment_row (now : timestamptz) (sl : share_links_row) : share_links_row :=
  mk_share_links_row (sl_id sl) (sl_file_id sl) (sl_token sl) (sl_expires_at sl)
    (sl_max_downloads sl) (sl_current_downloads sl + 1) (sl_password_hash sl)
    (sl_is_active sl) (sl_created_at sl) now.

(** What the [UPDATE ... WHERE id = link_id] makes of a row. *)
Definition bump (now : timestamptz) (link_id : uuid) (sl : share_links_row) : share_links_row :=
  if N.eqb (sl_id sl) link_id then increment_row now sl else sl.

(** [UPDATE share_links SET current_downloads = current_downloads + 1
     WHERE id = link_id]; the sum has to be an [INTEGER] again. *)
Definition update_current_downloads (now : timestamptz) (link_id : uuid) : plpgsql unit :=
  fun d =>
    if existsb (fun sl => N.eqb (sl_id sl) link_id
                          && (int4_max <? sl_current_downloads sl + 1))
               (share_links d)
    then (Raised integer_out_of_range, d)
    else (Returned tt,
          with_share_links d
            (map (bump now link_id) (share_links d))).

Open Scope plpgsql_scope.

(** The statements of [log_download] that follow [SELECT id INTO link_id]:
    the [IF link_id IS NULL] branch and the three writes. *)
Definition log_download_writes (now : timestamptz)
    (link_token user_agent_text : string) (ip_addr : inet)
    (link_id : option uuid) : plpgsql uuid :=
  match link_id with
  | None =>
      insert_download_attempt now ip_addr link_token false ;;
      raise_exception invalid_link_message
  | Some link_id =>
      insert_download_attempt now ip_addr link_token true ;;
      log_id <- insert_download_log now link_id (Some user_agent_text) (Some ip_addr) ;;
      update_current_downloads now link_id ;;
      ret log_id
  end.

(** The body of [log_download], statement by statement. *)
Definition log_download_body (now : timestamptz)
    (link_token user_agent_text : string) (ip_addr : inet) : plpgsql uuid :=
  recent_attempts <- query (count_recent_attempts now ip_addr) ;;
  if 20 <=? recent_attempts then raise_exception ip_rate_limit_message else
  recent_failures <- query (count_recent_failures now link_token) ;;
  if 10 <=? recent_failures then raise_exception token_rate_limit_message else
  link_id <- query (select_link_id now link_token) ;;
  log_download_writes now link_token user_agent_text ip_addr link_id.

(** [log_download] as a client calls it. *)
Definition log_download (now : timestamptz)
    (link_token user_agent_text : string) (ip_addr : inet) : plpgsql uuid :=
  transaction (log_download_body now link_token user_agent_text ip_addr).

(** The earlier two-argument overload [log_download(link_token,
    user_agent_text)], which the later migration leaves in place. *)
Definition log_download_2_body (now : timestamptz)
    (link_token user_agent_text : string) : plpgsql uuid :=
  link_id <- query (select_link_id now link_token) ;;
  match link_id with
  | None => raise_exception invalid_link_message
  | Some link_id =>
      log_id <- insert_download_log now link_id (Some user_agent_text) None ;;
      update_current_downloads now link_id ;;
      ret log_id
  end.

Definition log_download_2 (now : timestamptz)
    (link_token user_agent_text : string) : plpgsql uuid :=
  transaction (log_download_2_body now link_token user_agent_text).

Close Scope plpgsql_scope.

(** ** [get_share_link_by_token(link_token)] *)

(** The columns of the function's [RETURNS TABLE]. *)
Record share_link_info := mk_share_link_info {
  sli_id : uuid;
  sli_file_id : uuid;
  sli_token : string;
  sli_expires_at : option timestamptz;
  sli_max_downloads : option Z;
  sli_current_downloads : Z;
  sli_is_active : bool;
  sli_filename : string;
  sli_original_filename : string;
  sli_file_size : Z;
  sli_storage_path : string
}.

Definition join_row (sl : share_links_row) (f : files_row) : share_link_info :=
  mk_share_link_info (sl_id sl) (sl_file_id sl) (sl_token sl) (sl_expires_at sl)
    (sl_max_downloads sl) (sl_current_downloads sl) (sl_is_active sl)
    (f_filename f) (f_original_filename f) (f_file_size f) (f_storage_path f).

(** [SELECT ... FROM share_links sl JOIN files f ON f.id = sl.file_id
     WHERE sl.token = link_token AND ... LIMIT 1] *)
Definition get_share_link_by_token (now : timestamptz) (link_token : string)
    (d : db) : list share_link_info :=
  firstn 1
    (flat_map
       (fun sl =>
          map (join_row sl)
              (filter (fun f => N.eqb (f_id f) (sl_file_id sl)) (files d)))
       (filter (fun sl => String.eqb (sl_token sl) link_token && usable now sl)
               (share_links d))).

(** ** Row-level security on [share_links]

    After the migration that drops "Public can view active share links", the
    one [SELECT] policy left is "Users can view share links for their files":
    [EXISTS (SELECT 1 FROM files WHERE files.id = share_links.file_id
             AND files.user_id = auth.uid())].  [auth.uid()] is [NULL] for a
    caller who is not signed in. *)

Definition file_owned_by (auth_uid : option uuid) (f : files_row) : bool :=
  match auth_uid with
  | Some u => N.eqb (f_user_id f) u
  | None => false
  end.

Definition owns_file_of (auth_uid : option uuid) (d : db) (file_id : uuid) : bool :=
  existsb (fun f => N.eqb (f_id f) file_id && file_owned_by auth_uid f) (files d).

(** [SELECT * FROM share_links] as the role with identity [auth_uid] sees it. *)
Definition select_share_links (auth_uid : option uuid) (d : db) : list share_links_row :=
  filter (fun sl => owns_file_of auth_uid d (sl_file_id sl)) (share_links d).

(** ** Client-side writes

    [FileUpload] inserts the share link; [Dashboard.handleDeleteFile]
    deletes a file, and the foreign keys cascade. *)

(** The items of the "Download Limit" select. *)
Inductive max_downloads_choice :=
| Downloads1 | Downloads3 | Downloads5 | Downloads10 | Downloads25 | Unlimited.

(** [state.maxDownloads !== 'unlimited' ? parseInt(state.maxDownloads) : null] *)
Definition maxDownloads_of (c : max_downloads_choice) : option Z :=
  match c with
  | Downloads1 => Some 1
  | Downloads3 => Some 3
  | Downloads5 => Some 5
  | Downloads10 => Some 10
  | Downloads25 => Some 25
  | Unlimited => None
  end.

(** [supabase.from('share_links').insert({file_id, token, expires_at,
    max_downloads, is_active: true})]: the insert policy wants the file to
    be the caller's, the token is [UNIQUE]; the other columns take their
    defaults. *)
Definition create_share_link (now : timestamptz) (auth_uid : option uuid)
    (file_id : uuid) (shareToken : string) (expiresAt : option timestamptz)
    (choice : max_downloads_choice) : plpgsql unit :=
  fun d =>
    if negb (owns_file_of auth_uid d file_id) then
      (Raised "new row violates row-level security policy for table share_links", d)
    else if existsb (fun sl => String.eqb (sl_token sl) shareToken) (share_links d) then
      (Raised "duplicate key value violates unique constraint share_links_token_key", d)
    else
      let row := mk_share_links_row
                   (gen_random_uuid (map sl_id (share_links d)))
                   file_id shareToken expiresAt (maxDownloads_of choice)
                   0 None true now now in
      (Returned tt, with_share_links d (share_links d ++ [row])).

(** [supabase.from('files').delete().eq('id', fileId)], with
    [ON DELETE CASCADE] from [share_links.file_id] and from
    [download_logs.share_link_id]. *)
Definition delete_file (auth_uid : option uuid) (fileId : uuid) : plpgsql unit :=
  fun d =>
    let deleted f := N.eqb (f_id f) fileId && file_owned_by auth_uid f in
    let link_goes sl :=
      existsb (fun f => deleted f && N.eqb (f_id f) (sl_file_id sl)) (files d) in
    let log_goes l :=
      existsb (fun sl => link_goes sl && N.eqb (sl_id sl) (dl_share_link_id l))
              (share_links d) in
    (Returned tt,
     mk_db (filter (fun f => negb (deleted f)) (files d))
           (filter (fun sl => negb (link_goes sl)) (share_links d))
           (filter (fun l => negb (log_goes l)) (download_logs d))
           (download_attempts d)).

(** The operations that touch [share_links]. *)
Inductive operation :=
| Op_get_share_link_by_token (link_token : string)
| Op_log_download (link_token user_agent_text : string) (ip_addr : inet)
| Op_log_download_2 (link_token user_agent_text : string)
| Op_create_share_link (auth_uid : option uuid) (file_id : uuid)
    (shareToken : string) (expiresAt : option timestamptz)
    (choice : max_downloads_choice)
| Op_delete_file (auth_uid : option uuid) (fileId : uuid).

(** The database an operation started at [now] leaves behind. *)
Definition run_operation (now : timestamptz) (op : operation) (d : db) : db :=
  match op with
  | Op_get_share_link_by_token _ => d
  | Op_log_download t ua ip => snd (log_download now t ua ip d)
  | Op_log_download_2 t ua => snd (log_download_2 now t ua d)
  | Op_create_share_link u f t e c => snd (transaction (create_share_link now u f t e c) d)
  | Op_delete_file u f => snd (transaction (delete_file u f) d)
  end.

Definition is_log_download (op : operation) : bool :=
  match op with
  | Op_log_download _ _ _ | Op_log_download_2 _ _ => true
  | _ => false
  end.

(** The row of [share_links] with primary key [i]. *)
Definition link_with_id (i : uuid) (d : db) : option share_links_row :=
  find (fun sl => N.eqb (sl_id sl) i) (share_links d).

(** The row of [share_links] with token [t]. *)
Definition link_with_token (t : string) (d : db) : option share_links_row :=
  find (fun sl => String.eqb (sl_token sl) t) (share_links d).

(** [id UUID PRIMARY KEY] and [token TEXT NOT NULL UNIQUE] on [share_links]. *)
Definition share_links_keys (d : db) : Prop :=
  NoDup (map sl_id (share_links d)) /\ NoDup (map sl_token (share_links d)).

(** [currentDownloads <= maxDownloads] whenever [maxDownloads] is set. *)
Definition within_limit (sl : share_links_row) : Prop :=
  forall m, sl_max_downloads sl = Some m -> sl_current_downloads sl <= m.

Definition share_link_invariant (d : db) : Prop :=
  Forall within_limit (share_links d).

(** ** The [download-file] edge function *)

(** What the handler reads of a request.  [req_json] is the result of
    [await req.json()]: [None] when the body is not JSON (the call throws),
    otherwise the [token] field, [None] when it is missing. *)
Record request := mk_request {
  req_method : string;
  req_json : option (option string);
  x_forwarded_for : option string;
  x_real_ip : option string;
  user_agent : option string
}.

Inductive response_body :=
| Text (text : string)
| JsonError (error : string)
| JsonDownload (signedUrl filename : string).

Record response := mk_response {
  status : Z;
  body : response_body
}.

(** The instants at which the handler's three time-dependent steps run:
    the lookup's [now()], the handler's [new Date()] in milliseconds, and
    [log_download]'s [now()]. *)
Record clock := mk_clock {
  t_lookup : timestamptz;
  t_check : Z;
  t_log : timestamptz
}.

(** [new Date(s)] for the text of a [timestamptz]: milliseconds since the
    epoch, the sub-millisecond digits dropped. *)
Definition js_Date (t : timestamptz) : Z := t / 1000.

(** A string in a JavaScript condition: false when empty. *)
Definition truthy (s : string) : bool := negb (String.eqb s "").

(** [s.split(',')[0]] *)
Fixpoint split_comma_0 (s : string) : string :=
  match s with
  | EmptyString => EmptyString
  | String c rest =>
      if Ascii.eqb c ","%char then EmptyString else String c (split_comma_0 rest)
  end.

(** White space as [trim] sees it.  A header value is a byte string: each
    of its characters has a code from 0 to 255.  Of these [trim] strips the
    space, the codes 9 to 13 (tab, line feed, vertical tab, form feed,
    carriage return) and 160, the no-break space U+00A0; the other white
    space of JavaScript lies above 255. *)
Definition is_white_space (c : ascii) : bool :=
  let n := nat_of_ascii c in
  (Nat.eqb n 32 || (Nat.leb 9 n && Nat.leb n 13) || Nat.eqb n 160)%bool.

Fixpoint trim_start (s : string) : string :=
  match s with
  | EmptyString => EmptyString
  | String c rest => if is_white_space c then trim_start rest else s
  end.

Fixpoint trim_end (s : string) : string :=
  match s with
  | EmptyString => EmptyString
  | String c rest =>
      match trim_end rest with
      | EmptyString => if is_white_space c then EmptyString else String c EmptyString
      | r => String c r
      end
  end.

Definition trim (s : string) : string := trim_end (trim_start s).

(** [shareLink.expires_at ? new Date(shareLink.expires_at) < now : false] *)
Definition isExpired (now_ms : Z) (shareLink : share_link_info) : bool :=
  match sli_expires_at shareLink with
  | Some e => js_Date e <? now_ms
  | None => false
  end.

(** [shareLink.max_downloads ?
       shareLink.current_downloads >= shareLink.max_downloads : false];
    the number 0 is false as a condition. *)
Definition limitReached (shareLink : share_link_info) : bool :=
  match sli_max_downloads shareLink with
  | Some m => if m =? 0 then false else m <=? sli_current_downloads shareLink
  | None => false
  end.

(** [!shareLink.is_active || isExpired || limitReached] *)
Definition no_longer_valid (now_ms : Z) (shareLink : share_link_info) : bool :=
  negb (sli_is_active shareLink) || isExpired now_ms shareLink || limitReached shareLink.

(** The client address the handler passes to [log_download]. *)
Definition ipAddress_of (req : request) : string :=
  match x_forwarded_for req with
  | Some forwardedFor =>
      if truthy forwardedFor then trim (split_comma_0 forwardedFor)
      else match x_real_ip req with
           | Some ip => if truthy ip then ip else "0.0.0.0"
           | None => "0.0.0.0"
           end
  | None =>
      match x_real_ip req with
      | Some ip => if truthy ip then ip else "0.0.0.0"
      | None => "0.0.0.0"
      end
  end.

(** [req.headers.get('user-agent') || 'unknown'] *)
Definition userAgent_of (req : request) : string :=
  match user_agent req with
  | Some ua => if truthy ua then ua else "unknown"
  | None => "unknown"
  end.

Definition json_response (st : Z) (b : response_body) : response := mk_response st b.

Definition double_quote : string := String (ascii_of_nat 34) EmptyString.

Section DownloadFile.

(** PostgreSQL's input conversion for [inet], which the [ip_addr] argument
    goes through, and the object store's [createSignedUrl]. *)
Variable inet_in : string -> option inet.
Variable createSignedUrl : string -> Z -> option string.

(** [supabaseAdmin.rpc('log_download', {link_token, user_agent_text, ip_addr})] *)
Definition rpc_log_download (now : timestamptz)
    (link_token user_agent_text ip_text : string) : plpgsql uuid :=
  match inet_in ip_text with
  | Some ip_addr => log_download now link_token user_agent_text ip_addr
  | None =>
      raise_exception
        ("invalid input syntax for type inet: " ++ double_quote ++ ip_text ++ double_quote)
  end.

(** The [Deno.serve] handler.  Of the failures of the platform only the
    ones the handler tells apart are here: a body that is not JSON, an
    error from [log_download], and a signed URL that cannot be made. *)
Definition handler (clk : clock) (req : request) (d : db) : response * db :=
  if String.eqb (req_method req) "OPTIONS" then (mk_response 200 (Text "ok"), d)
  else
    match req_json req with
    | None => (json_response 500 (JsonError "Internal server error"), d)
    | Some None => (json_response 400 (JsonError "Token is required"), d)
    | Some (Some token) =>
        if negb (truthy token) then
          (json_response 400 (JsonError "Token is required"), d)
        else
          match get_share_link_by_token (t_lookup clk) token d with
          | [] => (json_response 404 (JsonError "Invalid or expired link"), d)
          | shareLink :: _ =>
              if no_longer_valid (t_check clk) shareLink then
                (json_response 403 (JsonError "Link is no longer valid"), d)
              else
                match rpc_log_download (t_log clk) token (userAgent_of req)
                                       (ipAddress_of req) d with
                | (Raised message, d') =>
                    (json_response 403
                       (JsonError (if truthy message then message
                                   else "Failed to log download")), d')
                | (Returned _, d') =>
                    match createSignedUrl (sli_storage_path shareLink) 3600 with
                    | None =>
                        (json_response 500
                           (JsonError "Failed to generate download URL"), d')
                    | Some url =>
                        (json_response 200
                           (JsonDownload url (sli_original_filename shareLink)), d')
                    end
                end
          end
    end.

End DownloadFile.

(** ** Calls that overlap in time

    PostgreSQL runs each call at READ COMMITTED unless told otherwise, and
    the migrations do not tell it otherwise.  Each [SELECT] of a call then
    sees the rows committed when that statement starts.  The rows a call
    inserts stay invisible to the others until it returns, and its [UPDATE]
    holds the row until then; so the statements after
    [SELECT id INTO link_id] act on the committed database as one step. *)

Record call := mk_call {
  c_now : timestamptz;
  c_link_token : string;
  c_user_agent_text : string;
  c_ip_addr : inet
}.

(** Where a call of [log_download] stands. *)
Inductive progress :=
| AtIpCheck
| AtTokenCheck
| AtSelectLink
| AtWrites (link_id : option uuid)
| Finished (result : outcome uuid).

Definition step (c : call) (p : progress) (d : db) : progress * db :=
  match p with
  | AtIpCheck =>
      if 20 <=? count_recent_attempts (c_now c) (c_ip_addr c) d
      then (Finished (Raised ip_rate_limit_message), d)
      else (AtTokenCheck, d)
  | AtTokenCheck =>
      if 10 <=? count_recent_failures (c_now c) (c_link_token c) d
      then (Finished (Raised token_rate_limit_message), d)
      else (AtSelectLink, d)
  | AtSelectLink => (AtWrites (select_link_id (c_now c) (c_link_token c) d), d)
  | AtWrites link_id =>
      let (r, d') :=
        transaction
          (log_download_writes (c_now c) (c_link_token c) (c_user_agent_text c)
                               (c_ip_addr c) link_id) d in
      (Finished r, d')
  | Finished r => (Finished r, d)
  end.

(** The calls in flight, and the database they share. *)
Definition sessions := list (call * progress).

(** Let session number [i] take its next step. *)
Fixpoint advance (i : nat) (ss : sessions) (d : db) : sessions * db :=
  match ss with
  | [] => ([], d)
  | (c, p) :: rest =>
      match i with
      | O => let (p', d') := step c p d in ((c, p') :: rest, d')
      | S j => let (rest', d') := advance j rest d in ((c, p) :: rest', d')
      end
  end.

(** Run a schedule: the list of the sessions that step, in order. *)
Fixpoint run_schedule (schedule : list nat) (ss : sessions) (d : db) : sessions * db :=
  match schedule with
  | [] => (ss, d)
  | i :: later => let (ss', d') := advance i ss d in run_schedule later ss' d'
  end.

Definition start (calls : list call) : sessions := map (fun c => (c, AtIpCheck)) calls.

(** The calls one after the other, each from start to return. *)
Fixpoint run_serially (calls : list call) (d : db) : list (outcome uuid) * db :=
  match calls with
  | [] => ([], d)
  | c :: later =>
      let (r, d') := log_download (c_now c) (c_link_token c) (c_user_agent_text c)
                                  (c_ip_addr c) d in
      let (rs, d'') := run_serially later d' in
      (r :: rs, d'')
  end.

Definition succeeded (r : outcome uuid) : bool :=
  match r with
  | Returned _ => true
  | Raised _ => false
  end.

(** ** What a caller who is not signed in can reach *)

Inductive anon_operation :=
| Anon_select_share_links
| Anon_get_share_link_by_token (link_token : string)
| Anon_log_download (link_token user_agent_text : string) (ip_addr : inet)
| Anon_log_download_2 (link_token user_agent_text : string).

(** The token the caller hands over. *)
Definition token_supplied (op : anon_operation) : option string :=
  match op with
  | Anon_select_share_links => None
  | Anon_get_share_link_by_token t => Some t
  | Anon_log_download t _ _ => Some t
  | Anon_log_download_2 t _ => Some t
  end.

(** The tokens of the share links the operation hands back. *)
Definition tokens_returned (now : timestamptz) (op : anon_operation) (d : db) : list string :=
  match op with
  | Anon_select_share_links => map sl_token (select_share_links None d)
  | Anon_get_share_link_by_token t => map sli_token (get_share_link_by_token now t d)
  | Anon_log_download _ _ _ => []
  | Anon_log_download_2 _ _ => []
  end.

(** The database once the three writes of [log_download] have been made for
    the link with key [link_id]. *)
Definition after_writes (now : timestamptz) (link_token user_agent_text : string)
    (ip_addr : inet) (link_id : uuid) (d : db) : db :=
  mk_db (files d)
        (map (bump now link_id) (share_links d))
        (download_logs d
           ++ [mk_download_logs_row (gen_random_uuid (map dl_id (download_logs d)))
                 link_id (Some ip_addr) (Some user_agent_text) now])
        (download_attempts d
           ++ [mk_download_attempts_row
                 (gen_random_uuid (map da_id (download_attempts d)))
                 ip_addr link_token now true]).

(** The ways a call of [log_download] can go. *)
Inductive log_download_case (now : timestamptz) (t ua : string) (ip : inet) (d : db) :
    outcome uuid * db -> Prop :=
| IpLimited :
    20 <= count_recent_attempts now ip d ->
    log_download_case now t ua ip d (Raised ip_rate_limit_message, d)
| TokenLimited :
    count_recent_attempts now ip d < 20 ->
    10 <= count_recent_failures now t d ->
    log_download_case now t ua ip d (Raised token_rate_limit_message, d)
| NoUsableLink :
    count_recent_attempts now ip d < 20 ->
    count_recent_failures now t d < 10 ->
    select_link_id now t d = None ->
    log_download_case now t ua ip d (Raised invalid_link_message, d)
| CounterFull (i : uuid) (sl : share_links_row) :
    count_recent_attempts now ip d < 20 ->
    count_recent_failures now t d < 10 ->
    select_link_id now t d = Some i ->
    In sl (share_links d) -> sl_id sl = i -> int4_max <= sl_current_downloads sl ->
    log_download_case now t ua ip d (Raised integer_out_of_range, d)
| Consumed (i : uuid) :
    count_recent_attempts now ip d < 20 ->
    count_recent_failures now t d < 10 ->
    select_link_id now t d = Some i ->
    (forall sl, In sl (share_links d) -> sl_id sl = i ->
                sl_current_downloads sl < int4_max) ->
    log_download_case now t ua ip d
      (Returned (gen_random_uuid (map dl_id (download_logs d))),
       after_writes now t ua ip i d).

(** ** Sample data *)

Definition sample_file : files_row :=
  mk_files_row 1%N 7%N "a.bin" "report.pdf" 10 "application/pdf" "7/a.bin" true 0 0.

(** A link good for one download. *)
Definition link_once : share_links_row :=
  mk_share_links_row 1%N 1%N "tok" None (Some 1) 0 None true 0 0.

Definition db_once : db := mk_db [sample_file] [link_once] [] [].

(** Two requests for the same link, from two addresses. *)
Definition call_a : call := mk_call 1000 "tok" "ua" "10.0.0.1".
Definition call_b : call := mk_call 1000 "tok" "ub" "10.0.0.2".

(** [call_b] reads, [call_a] runs from start to return, [call_b] writes. *)
Definition overlapping_schedule : list nat := [1; 1; 1; 0; 0; 0; 0; 1]%nat.

(** A link without a ceiling whose counter is at the top of [INTEGER]. *)
Definition link_full_counter : share_links_row :=
  mk_share_links_row 1%N 1%N "tok" None None int4_max None true 0 0.

Definition db_full_counter : db := mk_db [sample_file] [link_full_counter] [] [].

(** A link that expired, and a link that is used up. *)
Definition link_expired : share_links_row :=
  mk_share_links_row 1%N 1%N "tok" (Some 500) (Some 5) 0 None true 0 0.

Definition link_exhausted : share_links_row :=
  mk_share_links_row 1%N 1%N "tok" None (Some 5) 5 None true 0 0.

Definition db_expired : db := mk_db [sample_file] [link_expired] [] [].
Definition db_exhausted : db := mk_db [sample_file] [link_exhausted] [] [].

(** [n] attempts against token [t] from address [ip] at time [at_]. *)
Fixpoint attempts_from (n : nat) (ip : inet) (t : string) (at_ : timestamptz)
    (success : bool) : list download_attempts_row :=
  match n with
  | O => []
  | S k => attempts_from k ip t at_ success
             ++ [mk_download_attempts_row (N.of_nat n) ip t at_ success]
  end.

(** The one-download link's database after twenty attempts from one
    address, and after ten failed attempts on the link from another. *)
Definition db_ip_window : db :=
  mk_db [sample_file] [link_once] [] (attempts_from 20 "10.0.0.1" "other" 900 true).

Definition db_token_window : db :=
  mk_db [sample_file] [link_once] [] (attempts_from 10 "10.9.9.9" "tok" 900 false).

(** The moment before the second of the two overlapping calls writes:
    [call_b] has read the link, [call_a] has run from start to return. *)
Definition before_last_write : sessions * db :=
  run_schedule (firstn 7 overlapping_schedule) (start [call_a; call_b]) db_once.

(** A link good for two downloads until time 5000. *)
Definition link_twice : share_links_row :=
  mk_share_links_row 1%N 1%N "tok" (Some 5000) (Some 2) 0 None true 0 0.

Definition db_twice : db := mk_db [sample_file] [link_twice] [] [].

(** A link without a ceiling, five attempts of one address on record, and
    twenty-five more calls from that address. *)
Definition link_unlimited : share_links_row :=
  mk_share_links_row 1%N 1%N "tok" None None 0 None true 0 0.

Definition db_unlimited : db :=
  mk_db [sample_file] [link_unlimited] [] (attempts_from 5 "10.0.0.1" "other" 900 true).

Definition calls_25 : list call := repeat call_a 25.

(** A header whose first entry has a no-break space and a blank before it
    and a tab after it. *)
Definition padded_forwarded_for : string :=
  String (ascii_of_nat 160) " 1.2.3.4" ++ String (ascii_of_nat 9) ", 5.6.7.8".

Definition sample_clock : clock := mk_clock 1000 1 1000.

Definition post_token (t : string) (ip : string) : request :=
  mk_request "POST" (Some (Some t)) (Some ip) None (Some "agent").

Definition sample_inet_in (s : string) : option inet := Some s.

Definition sample_createSignedUrl (path : string) (ttl : Z) : option string :=
  Some ("https://storage/" ++ path).

(** ** More of the schema

    The constraints and policies the functions above live with. *)

(** [id UUID PRIMARY KEY] on [files]. *)
Definition files_keys (d : db) : Prop := NoDup (map f_id (files d)).

(** [share_links.file_id REFERENCES files(id)] and
    [download_logs.share_link_id REFERENCES share_links(id)]. *)
Definition references_ok (d : db) : Prop :=
  (forall sl, In sl (share_links d) ->
              exists f, In f (files d) /\ f_id f = sl_file_id sl)
  /\ (forall l, In l (download_logs d) ->
                exists sl, In sl (share_links d) /\ sl_id sl = dl_share_link_id l).

(** The rows of [download_attempts] with [success = false]. *)
Definition failed_attempts (d : db) : list download_attempts_row :=
  filter (fun a => Bool.eqb (da_success a) false) (download_attempts d).

(** [SELECT * FROM files] as the role with identity [auth_uid] sees it,
    under "Users can view their own files", the one [SELECT] policy of the
    table. *)
Definition select_files (auth_uid : option uuid) (d : db) : list files_row :=
  filter (file_owned_by auth_uid) (files d).

(** The storage policy "Public can download files via valid share links":
    [bucket_id = 'secure-files' AND EXISTS (SELECT 1 FROM share_links sl
     JOIN files f ON f.id = sl.file_id WHERE f.storage_path = objects.name
     AND sl.is_active = true AND ...)].  The policy is no [SECURITY
    DEFINER] function: its sub-select runs with the rights of the caller
    who reads [storage.objects], so it sees [share_links] and [files]
    through their own row-level security. *)
Definition public_can_download (auth_uid : option uuid) (now : timestamptz) (d : db)
    (bucket_id name : string) : bool :=
  String.eqb bucket_id "secure-files"
  && existsb
       (fun sl =>
          existsb (fun f => N.eqb (f_id f) (sl_file_id sl)
                            && String.eqb (f_storage_path f) name)
                  (select_files auth_uid d)
          && usable now sl)
       (select_share_links auth_uid d).

(** ** The dashboard's list of files

    [supabase.from('files').select('..., share_links (...)')
       .order('created_at', { ascending: false })], under the policies
    "Users can view their own files" and "Users can view share links for
    their files". *)

(** Put a file into a list that is ordered by [created_at], newest first. *)
Fixpoint insert_by_created_at (f : files_row) (l : list files_row) : list files_row :=
  match l with
  | [] => [f]
  | g :: rest =>
      if f_created_at g <? f_created_at f then f :: l
      else g :: insert_by_created_at f rest
  end.

Definition order_by_created_at_desc (l : list files_row) : list files_row :=
  fold_right insert_by_created_at [] l.

(** The embedded [share_links (...)] of one file. *)
Definition share_links_of (auth_uid : option uuid) (d : db) (f : files_row)
    : list share_links_row :=
  filter (fun sl => N.eqb (sl_file_id sl) (f_id f)) (select_share_links auth_uid d).

Definition fetchFiles (auth_uid : option uuid) (d : db)
    : list (files_row * list share_links_row) :=
  map (fun f => (f, share_links_of auth_uid d f))
      (order_by_created_at_desc (select_files auth_uid d)).

(** ** The upload form: expiry of the new link *)

(** The items of the "Link Expiration" select. *)
Inductive expirationTime_choice :=
| Expire1 | Expire6 | Expire24 | Expire48 | Expire168 | ExpireNever.

(** [parseInt(state.expirationTime)], for the items other than ['never']. *)
Definition hours_of (c : expirationTime_choice) : option Z :=
  match c with
  | Expire1 => Some 1
  | Expire6 => Some 6
  | Expire24 => Some 24
  | Expire48 => Some 48
  | Expire168 => Some 168
  | ExpireNever => None
  end.

(** [new Date(Date.now() + hours * 60 * 60 * 1000).toISOString()], read by
    the database as a [timestamptz]; [date_now] is in milliseconds. *)
Definition expiresAt_of (date_now : Z) (c : expirationTime_choice) : option timestamptz :=
  match hours_of c with
  | Some hours => Some (1000 * (date_now + hours * 60 * 60 * 1000))
  | None => None
  end.

(** ** Strings, for stating what the handler extracts *)

Fixpoint string_forall (p : ascii -> bool) (s : string) : bool :=
  match s with
  | EmptyString => true
  | String c rest => p c && string_forall p rest
  end.

(** The string is not empty and its first character is no white space. *)
Definition starts_clean (s : string) : bool :=
  match s with
  | EmptyString => false
  | String c _ => negb (is_white_space c)
  end.

(** The string is not empty and its last character is no white space. *)
Fixpoint ends_clean (s : string) : bool :=
  match s with
  | EmptyString => false
  | String c EmptyString => negb (is_white_space c)
  | String _ rest => ends_clean rest
  end.

Definition not_comma (c : ascii) : bool := negb (Ascii.eqb c ","%char).

Definition not_dot (c : ascii) : bool := negb (Ascii.eqb c "."%char).

(** ** The upload form: what it refuses *)

(** The signatures of [checkFileMagicNumbers]. *)
Definition signatures : list (list Z * string) :=
  [ ([0x4D; 0x5A], "PE/DOS executable");
    ([0x7F; 0x45; 0x4C; 0x46], "ELF executable");
    ([0xCE; 0xFA; 0xED; 0xFE], "Mach-O executable");
    ([0xCF; 0xFA; 0xED; 0xFE], "Mach-O 64-bit");
    ([0xCA; 0xFE; 0xBA; 0xBE], "Java class file");
    ([0x21; 0x3C; 0x61; 0x72; 0x63; 0x68; 0x3E], "Debian package") ].

(** The inner loop: [bytes[i] !== sig.bytes[i]] for [i] from the given
    index on; a read past the end of [bytes] is [undefined] and matches
    nothing. *)
Fixpoint signature_matches (bytes : list Z) (i : nat) (sig : list Z) : bool :=
  match sig with
  | [] => true
  | s :: rest =>
      match nth_error bytes i with
      | Some b => if b =? s then signature_matches bytes (S i) rest else false
      | None => false
      end
  end.

Definition checkFileMagicNumbers (bytes : list Z) : bool :=
  if (List.length bytes <? 4)%nat then false
  else existsb (fun sig => signature_matches bytes 0 (fst sig)) signatures.

(** [s.split(sep)] for a separator of one character. *)
Fixpoint split (sep : ascii) (s : string) : list string :=
  match s with
  | EmptyString => [EmptyString]
  | String c rest =>
      if Ascii.eqb c sep then EmptyString :: split sep rest
      else match split sep rest with
           | seg :: segs => String c seg :: segs
           | [] => [String c EmptyString]
           end
  end.

(** [toLowerCase] on the letters A to Z; the list below holds no other
    letters, and no other character becomes one of them in lower case. *)
Definition lower (c : ascii) : ascii :=
  let n := nat_of_ascii c in
  if (Nat.leb 65 n && Nat.leb n 90)%bool then ascii_of_nat (n + 32) else c.

Fixpoint toLowerCase (s : string) : string :=
  match s with
  | EmptyString => EmptyString
  | String c rest => String (lower c) (toLowerCase rest)
  end.

Definition BLOCKED_EXTENSIONS : list string :=
  [".exe"; ".bat"; ".cmd"; ".sh"; ".app"; ".deb"; ".rpm"; ".msi"; ".com"; ".scr"].

(** ['.' + file.name.split('.').pop()?.toLowerCase()] *)
Definition fileExtension (name : string) : string :=
  "." ++ toLowerCase (last (split "."%char name) EmptyString).

(** [BLOCKED_EXTENSIONS.includes(fileExtension)] *)
Definition extension_blocked (name : string) : bool :=
  existsb (String.eqb (fileExtension name)) BLOCKED_EXTENSIONS.

(** ** The upload form: the share token *)

Definition hex_digit (n : Z) : ascii :=
  nth (Z.to_nat n)
      ["0"; "1"; "2"; "3"; "4"; "5"; "6"; "7"; "8"; "9";
       "a"; "b"; "c"; "d"; "e"; "f"]%char "0"%char.

(** [byte.toString(16)] for a byte. *)
Definition toString16 (byte : Z) : string :=
  if byte <? 16 then String (hex_digit byte) EmptyString
  else String (hex_digit (byte / 16)) (String (hex_digit (byte mod 16)) EmptyString).

(** [s.padStart(2, '0')] *)
Definition padStart2 (s : string) : string :=
  match String.length s with
  | O => "00"
  | S O => "0" ++ s
  | _ => s
  end.

(** [Array.from(tokenArray, byte => byte.toString(16).padStart(2, '0')).join('')] *)
Definition shareToken_of (tokenArray : list Z) : string :=
  String.concat "" (map (fun byte => padStart2 (toString16 byte)) tokenArray).

(** A [Uint8Array] holds numbers from 0 to 255. *)
Definition is_byte (b : Z) : Prop := 0 <= b < 256.

(** ** The download page *)

(** A JavaScript number as the page has them: an integer or [Infinity]. *)
Inductive js_number :=
| Num (z : Z)
| Infinity.

(** [Math.max(0, x)] *)
Definition max_0 (x : js_number) : js_number :=
  match x with
  | Num z => Num (Z.max 0 z)
  | Infinity => Infinity
  end.

(** [x - 1] *)
Definition minus_1 (x : js_number) : js_number :=
  match x with
  | Num z => Num (z - 1)
  | Infinity => Infinity
  end.

(** [x <= 0] *)
Definition le_0 (x : js_number) : bool :=
  match x with
  | Num z => z <=? 0
  | Infinity => false
  end.

(** The [FileMetadata] of the page. *)
Record FileMetadata := mk_FileMetadata {
  fm_id : uuid;
  fm_filename : string;
  fm_original_filename : string;
  fm_fileSize : Z;
  fm_expiresAt : option timestamptz;
  fm_maxDownloads : option Z;
  fm_currentDownloads : Z;
  fm_isValid : bool;
  fm_isExpired : bool;
  fm_remainingDownloads : js_number;
  fm_storage_path : string;
  fm_shareLinkId : uuid
}.

(** What [fetchFileData] makes of the row the lookup returned; [now_ms] is
    the page's [new Date()].  [typeof remainingDownloads === 'number'] holds
    for [Infinity] too, so the value is kept as it is. *)
Definition metadata_of (now_ms : Z) (linkData : share_link_info) : FileMetadata :=
  let isExpired := isExpired now_ms linkData in
  let limitReached := limitReached linkData in
  let remainingDownloads :=
    match sli_max_downloads linkData with
    | Some m =>
        if m =? 0 then Infinity
        else max_0 (Num (m - sli_current_downloads linkData))
    | None => Infinity
    end in
  mk_FileMetadata (sli_file_id linkData) (sli_filename linkData)
    (sli_original_filename linkData) (sli_file_size linkData)
    (sli_expires_at linkData) (sli_max_downloads linkData)
    (sli_current_downloads linkData)
    (sli_is_active linkData && negb isExpired && negb limitReached)
    (isExpired || limitReached)
    remainingDownloads
    (sli_storage_path linkData) (sli_id linkData).

(** The state [fetchFileData] leaves: an error text or the metadata. *)
Definition fetchFileData (now_ms : Z) (token : option string)
    (shareLink : list share_link_info) : string + FileMetadata :=
  match token with
  | None => inl "Invalid download link"
  | Some t =>
      if negb (truthy t) then inl "Invalid download link"
      else match shareLink with
           | [] => inl "File not found or invalid link"
           | linkData :: _ => inr (metadata_of now_ms linkData)
           end
  end.

(** The three cards of the page once loading is over. *)
Inductive page_view :=
| InvalidLinkCard (text : string)
| LinkExpiredCard (text : string)
| DownloadCard.

Definition render (state : string + FileMetadata) : page_view :=
  match state with
  | inl error => InvalidLinkCard error
  | inr fileData =>
      if negb (fm_isValid fileData) then
        InvalidLinkCard "This download link is invalid or has been revoked"
      else if fm_isExpired fileData || le_0 (fm_remainingDownloads fileData) then
        LinkExpiredCard
          (if fm_isExpired fileData then "This download link has expired"
           else "This download link has reached its maximum number of downloads")
      else DownloadCard
  end.

(** The update of the page's state after a download in [handleDownload]. *)
Definition after_download (prev : FileMetadata) : FileMetadata :=
  mk_FileMetadata (fm_id prev) (fm_filename prev) (fm_original_filename prev)
    (fm_fileSize prev) (fm_expiresAt prev) (fm_maxDownloads prev)
    (fm_currentDownloads prev + 1)
    (fm_isValid prev) (fm_isExpired prev)
    (max_0 (minus_1 (fm_remainingDownloads prev)))
    (fm_storage_path prev) (fm_shareLinkId prev).

(** A whole number as JavaScript prints it in a template. *)
Definition decimal (z : Z) : string :=
  DecimalString.NilZero.string_of_int (Z.to_int z).

(** [formatTimeRemaining], with both instants in milliseconds. *)
Definition formatTimeRemaining (now expiry : Z) : string :=
  let diff := expiry - now in
  if diff <=? 0 then "Expired"
  else
    let hours := diff / (1000 * 60 * 60) in
    let minutes := (diff mod (1000 * 60 * 60)) / (1000 * 60) in
    if 0 <? hours then decimal hours ++ "h " ++ decimal minutes ++ "m"
    else decimal minutes ++ "m".

(** * Properties *)

(** ** Keys and lookups *)

(** The key constraints of a table that is written out. *)
Ltac keys_by_computation :=
  split; simpl; repeat constructor; simpl; tauto.

Lemma fold_max_bound (l : list uuid) (x : uuid) :
  In x l -> (x <= fold_right N.max 0 l)%N.
Proof.
  induction l as [|y l IH]; simpl; intros H.
  - contradiction.
  - destruct H as [-> | H].
    + apply N.le_max_l.
    + etransitivity; [apply IH, H | apply N.le_max_r].
Qed.

Lemma gen_random_uuid_fresh (used : list uuid) : ~ In (gen_random_uuid used) used.
Proof.
  intros H. apply fold_max_bound in H. unfold gen_random_uuid in H. lia.
Qed.

Lemma NoDup_map_inj {A B} (key : A -> B) (l : list A) (a b : A) :
  NoDup (map key l) -> In a l -> In b l -> key a = key b -> a = b.
Proof.
  induction l as [|x l IH]; simpl; intros ND Ha Hb E.
  - contradiction.
  - inversion ND as [|? ? Hx ND']; subst.
    destruct Ha as [-> | Ha], Hb as [-> | Hb]; trivial.
    + exfalso. apply Hx. rewrite E. now apply in_map.
    + exfalso. apply Hx. rewrite <- E. now apply in_map.
    + now apply IH.
Qed.

Lemma find_unique {A B} (key : A -> B) (p : A -> bool) (l : list A) (a : A) :
  NoDup (map key l) -> In a l -> p a = true ->
  (forall x, In x l -> p x = true -> key x = key a) ->
  find p l = Some a.
Proof.
  intros ND Ha Hp Hk.
  destruct (find p l) as [x|] eqn:F.
  - apply find_some in F as [Hx Hpx].
    f_equal. apply (NoDup_map_inj key l); auto.
  - now rewrite (find_none _ _ F a Ha) in Hp.
Qed.

Lemma select_link_id_some (now : timestamptz) (t : string) (d : db) (i : uuid) :
  select_link_id now t d = Some i ->
  exists sl, In sl (share_links d) /\ sl_token sl = t /\ usable now sl = true
             /\ sl_id sl = i.
Proof.
  unfold select_link_id. intros H.
  destruct (find _ (share_links d)) as [sl|] eqn:F; simpl in H; [|discriminate].
  injection H as <-. apply find_some in F as [Hin Hp].
  apply andb_true_iff in Hp as [Ht Hu]. apply String.eqb_eq in Ht.
  now exists sl.
Qed.

Lemma select_link_id_none (now : timestamptz) (t : string) (d : db) :
  (forall sl, In sl (share_links d) -> sl_token sl = t -> usable now sl = false) ->
  select_link_id now t d = None.
Proof.
  intros H. destruct (select_link_id now t d) as [i|] eqn:E; trivial.
  apply select_link_id_some in E as (sl & Hin & Ht & Hu & _).
  rewrite (H sl Hin Ht) in Hu. discriminate.
Qed.

Lemma select_link_id_of_usable (now : timestamptz) (d : db) (sl : share_links_row) :
  share_links_keys d -> In sl (share_links d) -> usable now sl = true ->
  select_link_id now (sl_token sl) d = Some (sl_id sl).
Proof.
  intros [_ NDt] Hin Hu. unfold select_link_id.
  rewrite (find_unique sl_token _ (share_links d) sl); trivial.
  - now rewrite String.eqb_refl.
  - intros x _ Hx. apply andb_true_iff in Hx as [Hx _]. now apply String.eqb_eq in Hx.
Qed.

Lemma link_with_id_in (d : db) (sl : share_links_row) :
  share_links_keys d -> In sl (share_links d) -> link_with_id (sl_id sl) d = Some sl.
Proof.
  intros [NDi _] Hin. unfold link_with_id.
  apply (find_unique sl_id); trivial.
  - apply N.eqb_refl.
  - intros x _ Hx. now apply N.eqb_eq in Hx.
Qed.

Lemma link_with_id_some (i : uuid) (d : db) (sl : share_links_row) :
  link_with_id i d = Some sl -> In sl (share_links d) /\ sl_id sl = i.
Proof.
  unfold link_with_id. intros H. apply find_some in H as [Hin Hi].
  now apply N.eqb_eq in Hi.
Qed.

(** ** The [UPDATE] of the counter *)

Lemma bump_id (now : timestamptz) (i : uuid) (sl : share_links_row) :
  sl_id (bump now i sl) = sl_id sl.
Proof. unfold bump. now destruct (N.eqb _ _). Qed.

Lemma bump_token (now : timestamptz) (i : uuid) (sl : share_links_row) :
  sl_token (bump now i sl) = sl_token sl.
Proof. unfold bump. now destruct (N.eqb _ _). Qed.

Lemma map_bump_ids (now : timestamptz) (i : uuid) (l : list share_links_row) :
  map sl_id (map (bump now i) l) = map sl_id l.
Proof. rewrite map_map. apply map_ext, bump_id. Qed.

Lemma map_bump_tokens (now : timestamptz) (i : uuid) (l : list share_links_row) :
  map sl_token (map (bump now i) l) = map sl_token l.
Proof. rewrite map_map. apply map_ext, bump_token. Qed.

Lemma find_id_map_bump (now : timestamptz) (i j : uuid) (l : list share_links_row) :
  find (fun sl => N.eqb (sl_id sl) j) (map (bump now i) l)
  = option_map (bump now i) (find (fun sl => N.eqb (sl_id sl) j) l).
Proof.
  induction l as [|x l IH]; simpl; trivial.
  rewrite bump_id. now destruct (N.eqb (sl_id x) j).
Qed.

Lemma update_current_downloads_cases (now : timestamptz) (i : uuid) (d : db) :
  (update_current_downloads now i d = (Raised integer_out_of_range, d)
   /\ exists sl, In sl (share_links d) /\ sl_id sl = i
                 /\ int4_max <= sl_current_downloads sl)
  \/ (update_current_downloads now i d
      = (Returned tt, with_share_links d (map (bump now i) (share_links d)))
      /\ forall sl, In sl (share_links d) -> sl_id sl = i ->
                    sl_current_downloads sl < int4_max).
Proof.
  unfold update_current_downloads.
  destruct (existsb _ (share_links d)) eqn:E.
  - left. split; trivial.
    apply existsb_exists in E as (sl & Hin & H).
    apply andb_true_iff in H as [Hi Hr]. apply N.eqb_eq in Hi.
    exists sl. repeat split; trivial. lia.
  - right. split; trivial.
    intros sl Hin Hi.
    destruct (Z_lt_ge_dec (sl_current_downloads sl) int4_max) as [|G]; trivial.
    exfalso. rewrite <- not_true_iff_false in E. apply E.
    apply existsb_exists. exists sl. split; trivial.
    subst i. rewrite N.eqb_refl. simpl. lia.
Qed.

(** ** [log_download], case by case *)

Lemma log_download_writes_some (now : timestamptz) (t ua : string) (ip : inet)
    (i : uuid) (d : db) :
  (transaction (log_download_writes now t ua ip (Some i)) d
     = (Raised integer_out_of_range, d)
   /\ exists sl, In sl (share_links d) /\ sl_id sl = i
                 /\ int4_max <= sl_current_downloads sl)
  \/ (log_download_writes now t ua ip (Some i) d
       = (Returned (gen_random_uuid (map dl_id (download_logs d))),
          after_writes now t ua ip i d)
      /\ forall sl, In sl (share_links d) -> sl_id sl = i ->
                    sl_current_downloads sl < int4_max).
Proof.
  unfold transaction, log_download_writes, bind, insert_download_attempt,
    insert_download_log, ret.
  match goal with
  | |- context [update_current_downloads now i ?d1] =>
      destruct (update_current_downloads_cases now i d1) as [[E H] | [E H]];
      rewrite E
  end.
  - left. split; trivial.
  - right. split; trivial.
Qed.

Lemma log_download_body_eq (now : timestamptz) (t ua : string) (ip : inet) (d : db) :
  log_download_body now t ua ip d
  = if 20 <=? count_recent_attempts now ip d then (Raised ip_rate_limit_message, d)
    else if 10 <=? count_recent_failures now t d then (Raised token_rate_limit_message, d)
    else log_download_writes now t ua ip (select_link_id now t d) d.
Proof.
  unfold log_download_body, bind, query, raise_exception.
  destruct (20 <=? count_recent_attempts now ip d); trivial.
  destruct (10 <=? count_recent_failures now t d); trivial.
Qed.

Lemma log_download_cases (now : timestamptz) (t ua : string) (ip : inet) (d : db) :
  log_download_case now t ua ip d (log_download now t ua ip d).
Proof.
  unfold log_download, log_download_body, transaction, bind, query, raise_exception.
  destruct (20 <=? count_recent_attempts now ip d) eqn:E1.
  { apply IpLimited. lia. }
  destruct (10 <=? count_recent_failures now t d) eqn:E2.
  { apply TokenLimited; lia. }
  destruct (select_link_id now t d) as [i|] eqn:E3.
  - destruct (log_download_writes_some now t ua ip i d) as [[E (sl & H1 & H2 & H3)] | [E H]].
    + unfold transaction in E. rewrite E. eapply CounterFull; eauto; lia.
    + rewrite E. apply Consumed; trivial; lia.
  - simpl. apply NoUsableLink; trivial; lia.
Qed.


Lemma log_download_returned (now : timestamptz) (t ua : string) (ip : inet)
    (d d' : db) (log_id : uuid) :
  log_download now t ua ip d = (Returned log_id, d') ->
  exists i,
    select_link_id now t d = Some i
    /\ count_recent_attempts now ip d < 20
    /\ count_recent_failures now t d < 10
    /\ (forall sl, In sl (share_links d) -> sl_id sl = i ->
                   sl_current_downloads sl < int4_max)
    /\ log_id = gen_random_uuid (map dl_id (download_logs d))
    /\ d' = after_writes now t ua ip i d.
Proof.
  intros H. pose proof (log_download_cases now t ua ip d) as C.
  rewrite H in C. inversion C; subst.
  exists i. repeat split; trivial.
Qed.

(** With no usable link behind the token, the body inserts the failed
    attempt and raises; the raise takes the row away again. *)
Lemma log_download_no_usable_link (now : timestamptz) (t ua : string) (ip : inet) (d : db) :
  count_recent_attempts now ip d < 20 ->
  count_recent_failures now t d < 10 ->
  (forall sl, In sl (share_links d) -> sl_token sl = t -> usable now sl = false) ->
  log_download_body now t ua ip d
  = (Raised invalid_link_message,
     with_download_attempts d
       (download_attempts d
          ++ [mk_download_attempts_row (gen_random_uuid (map da_id (download_attempts d)))
                ip t now false]))
  /\ log_download now t ua ip d = (Raised invalid_link_message, d).
Proof.
  intros H1 H2 H. unfold log_download, transaction. rewrite log_download_body_eq.
  replace (20 <=? count_recent_attempts now ip d) with false by (symmetry; apply Z.leb_gt; lia).
  replace (10 <=? count_recent_failures now t d) with false by (symmetry; apply Z.leb_gt; lia).
  rewrite (select_link_id_none now t d H). split; reflexivity.
Qed.

(** Whatever [log_download] adds to [download_attempts] is a success: no
    call leaves a failed attempt behind. *)
Lemma log_download_attempts_added (now : timestamptz) (t ua : string) (ip : inet)
    (d : db) (a : download_attempts_row) :
  In a (download_attempts (snd (log_download now t ua ip d))) ->
  In a (download_attempts d) \/ da_success a = true.
Proof.
  destruct (log_download_cases now t ua ip d); simpl; auto.
  intros Ha. apply in_app_or in Ha as [Ha | [<- | []]]; auto.
Qed.

(** ** Rate limiting *)

(** C4.  [log_download] checks the two windows first: when the requester's
    address has 20 or more attempts of any kind in the last hour, or the
    token has 10 or more failed ones, the call raises a rate-limit message,
    the body has written nothing, the database is the same, and the outcome
    does not depend on the [share_links] table. *)
Theorem log_download_rate_limited (now : timestamptz) (t ua : string) (ip : inet) (d : db) :
  20 <= count_recent_attempts now ip d \/ 10 <= count_recent_failures now t d ->
  exists message,
    (message = ip_rate_limit_message \/ message = token_rate_limit_message)
    /\ (20 <= count_recent_attempts now ip d -> message = ip_rate_limit_message)
    /\ (count_recent_attempts now ip d < 20 -> message = token_rate_limit_message)
    /\ log_download_body now t ua ip d = (Raised message, d)
    /\ log_download now t ua ip d = (Raised message, d)
    /\ forall links,
         log_download now t ua ip (with_share_links d links)
         = (Raised message, with_share_links d links).
Proof.
  intros H.
  assert (limited : forall d0 message,
             (if 20 <=? count_recent_attempts now ip d0
              then Some ip_rate_limit_message
              else if 10 <=? count_recent_failures now t d0
                   then Some token_rate_limit_message else None) = Some message ->
             log_download_body now t ua ip d0 = (Raised message, d0)
             /\ log_download now t ua ip d0 = (Raised message, d0)).
  { intros d0 message. unfold log_download, transaction.
    rewrite log_download_body_eq.
    destruct (20 <=? count_recent_attempts now ip d0);
      [|destruct (10 <=? count_recent_failures now t d0)];
      intros E; inversion E; subst; split; reflexivity. }
  destruct (20 <=? count_recent_attempts now ip d) eqn:E1.
  - exists ip_rate_limit_message. repeat split; auto; try lia.
    + apply limited. now rewrite E1.
    + apply limited. now rewrite E1.
    + intros links. apply limited.
      change (count_recent_attempts now ip (with_share_links d links))
        with (count_recent_attempts now ip d).
      now rewrite E1.
  - destruct (10 <=? count_recent_failures now t d) eqn:E2; [|lia].
    exists token_rate_limit_message. repeat split; auto; try lia.
    + apply limited. now rewrite E1, E2.
    + apply limited. now rewrite E1, E2.
    + intros links. apply limited.
      change (count_recent_attempts now ip (with_share_links d links))
        with (count_recent_attempts now ip d).
      change (count_recent_failures now t (with_share_links d links))
        with (count_recent_failures now t d).
      now rewrite E1, E2.
Qed.

(** The per-address window, tripped by twenty attempts within the hour. *)
Lemma log_download_rate_limited_witness :
  exists message,
    (message = ip_rate_limit_message \/ message = token_rate_limit_message)
    /\ (20 <= count_recent_attempts 1000 "10.0.0.1" db_ip_window ->
        message = ip_rate_limit_message)
    /\ (count_recent_attempts 1000 "10.0.0.1" db_ip_window < 20 ->
        message = token_rate_limit_message)
    /\ log_download_body 1000 "tok" "ua" "10.0.0.1" db_ip_window
       = (Raised message, db_ip_window)
    /\ log_download 1000 "tok" "ua" "10.0.0.1" db_ip_window
       = (Raised message, db_ip_window)
    /\ forall links,
         log_download 1000 "tok" "ua" "10.0.0.1" (with_share_links db_ip_window links)
         = (Raised message, with_share_links db_ip_window links).
Proof.
  apply (log_download_rate_limited 1000 "tok" "ua" "10.0.0.1" db_ip_window).
  left. vm_compute. discriminate.
Defined.

(** ** The successful call *)

Lemma after_writes_link (now : timestamptz) (t ua : string) (ip : inet) (d : db)
    (sl : share_links_row) :
  share_links_keys d -> In sl (share_links d) ->
  link_with_id (sl_id sl) (after_writes now t ua ip (sl_id sl) d)
  = Some (increment_row now sl).
Proof.
  intros K Hin. unfold link_with_id, after_writes. simpl.
  rewrite find_id_map_bump. fold (link_with_id (sl_id sl) d).
  rewrite (link_with_id_in d sl K Hin). simpl.
  unfold bump. now rewrite N.eqb_refl.
Qed.





(** ** What a successful call leaves alone *)

Lemma Forall2_map_self {A} (R : A -> A -> Prop) (f : A -> A) (l : list A) :
  (forall x, In x l -> R x (f x)) -> Forall2 R l (map f l).
Proof.
  induction l as [|x l IH]; simpl; intros H; constructor.
  - apply H. now left.
  - apply IH. intros y Hy. apply H. now right.
Qed.

(** C10.  A successful call changes, in [share_links], only the row with the
    presented token, and of that row only [current_downloads], which grows
    by one, and [updated_at], which the trigger sets to [now()]. *)
Theorem log_download_frame (now : timestamptz) (t ua : string) (ip : inet)
    (d d' : db) (log_id : uuid) :
  share_links_keys d ->
  log_download now t ua ip d = (Returned log_id, d') ->
  Forall2
    (fun sl sl' =>
       sl_id sl' = sl_id sl
       /\ sl_file_id sl' = sl_file_id sl
       /\ sl_token sl' = sl_token sl
       /\ sl_expires_at sl' = sl_expires_at sl
       /\ sl_max_downloads sl' = sl_max_downloads sl
       /\ sl_password_hash sl' = sl_password_hash sl
       /\ sl_is_active sl' = sl_is_active sl
       /\ sl_created_at sl' = sl_created_at sl
       /\ (sl_token sl <> t -> sl' = sl)
       /\ (sl_token sl = t ->
           sl_current_downloads sl' = sl_current_downloads sl + 1
           /\ sl_updated_at sl' = now))
    (share_links d) (share_links d').
Proof.
  intros K H.
  apply log_download_returned in H as (i & Hs & _ & _ & _ & _ & ->).
  apply select_link_id_some in Hs as (s & Hin & Ht & _ & Hi).
  destruct K as [Ki Kt].
  unfold after_writes. simpl. apply Forall2_map_self.
  intros x Hx. unfold bump.
  destruct (N.eqb (sl_id x) i) eqn:E.
  - apply N.eqb_eq in E.
    assert (x = s) by (apply (NoDup_map_inj sl_id (share_links d)); congruence).
    subst x. simpl.
    do 8 (split; [reflexivity|]). split; [congruence|].
    intros _. split; reflexivity.
  - apply N.eqb_neq in E.
    do 8 (split; [reflexivity|]). split; [reflexivity|].
    intros Hxt. exfalso. apply E.
    assert (x = s) by (apply (NoDup_map_inj sl_token (share_links d)); congruence).
    congruence.
Qed.

(** The same download, seen from the [share_links] table. *)
Lemma log_download_frame_witness :
  Forall2
    (fun sl sl' =>
       sl_id sl' = sl_id sl
       /\ sl_file_id sl' = sl_file_id sl
       /\ sl_token sl' = sl_token sl
       /\ sl_expires_at sl' = sl_expires_at sl
       /\ sl_max_downloads sl' = sl_max_downloads sl
       /\ sl_password_hash sl' = sl_password_hash sl
       /\ sl_is_active sl' = sl_is_active sl
       /\ sl_created_at sl' = sl_created_at sl
       /\ (sl_token sl <> "tok" -> sl' = sl)
       /\ (sl_token sl = "tok" ->
           sl_current_downloads sl' = sl_current_downloads sl + 1
           /\ sl_updated_at sl' = 1000))
    (share_links db_once)
    (share_links (snd (log_download 1000 "tok" "ua" "10.0.0.1" db_once))).
Proof.
  apply (log_download_frame 1000 "tok" "ua" "10.0.0.1" db_once _ 1%N).
  - keys_by_computation.
  - reflexivity.
Defined.

(** ** The share-link invariant *)

Lemma log_download_links (now : timestamptz) (t ua : string) (ip : inet) (d : db) :
  share_links (snd (log_download now t ua ip d)) = share_links d
  \/ exists i, select_link_id now t d = Some i
               /\ share_links (snd (log_download now t ua ip d))
                  = map (bump now i) (share_links d).
Proof.
  destruct (log_download_cases now t ua ip d); simpl; auto.
  right. now exists i.
Qed.

Lemma log_download_2_links (now : timestamptz) (t ua : string) (d : db) :
  share_links (snd (log_download_2 now t ua d)) = share_links d
  \/ exists i, select_link_id now t d = Some i
               /\ share_links (snd (log_download_2 now t ua d))
                  = map (bump now i) (share_links d).
Proof.
  unfold log_download_2, transaction, log_download_2_body, bind, query,
    raise_exception, insert_download_log, ret.
  destruct (select_link_id now t d) as [i|] eqn:E; simpl; auto.
  match goal with
  | |- context [update_current_downloads now i ?d1] =>
      destruct (update_current_downloads_cases now i d1) as [[U _] | [U _]];
      rewrite U
  end; simpl; auto.
  right. now exists i.
Qed.

Lemma usable_under_limit (now : timestamptz) (sl : share_links_row) :
  usable now sl = true -> under_limit sl = true.
Proof.
  unfold usable. intros H. now apply andb_true_iff in H as [_ H].
Qed.

Lemma in_bumped (now : timestamptz) (t : string) (d : db) (i : uuid)
    (sl' : share_links_row) :
  share_links_keys d -> select_link_id now t d = Some i ->
  In sl' (map (bump now i) (share_links d)) ->
  In sl' (share_links d)
  \/ exists x, In x (share_links d) /\ under_limit x = true /\ sl' = increment_row now x.
Proof.
  intros [Ki _] Hs Hin.
  apply select_link_id_some in Hs as (s & Hs & _ & Hu & Hi).
  apply in_map_iff in Hin as (x & <- & Hx). unfold bump.
  destruct (N.eqb (sl_id x) i) eqn:E; auto.
  apply N.eqb_eq in E. right. exists x. repeat split; trivial.
  assert (x = s) by (apply (NoDup_map_inj sl_id (share_links d)); congruence).
  subst x. eapply usable_under_limit; eauto.
Qed.

(** Where a row of [share_links] comes from, after an operation: it was
    there, or it is a usable row that [log_download] has counted once more,
    or it is new, with counter 0. *)
Lemma run_operation_links (now : timestamptz) (op : operation) (d : db)
    (sl' : share_links_row) :
  share_links_keys d ->
  In sl' (share_links (run_operation now op d)) ->
  In sl' (share_links d)
  \/ (is_log_download op = true
      /\ exists x, In x (share_links d) /\ under_limit x = true
                   /\ sl' = increment_row now x)
  \/ (~ In (sl_id sl') (map sl_id (share_links d))
      /\ ~ In (sl_token sl') (map sl_token (share_links d))
      /\ sl_current_downloads sl' = 0 /\ within_limit sl').
Proof.
  intros K Hin. destruct op as [t | t ua ip | t ua | u f t e c | u f]; simpl in Hin.
  - auto.
  - destruct (log_download_links now t ua ip d) as [E | (i & Hs & E)];
      rewrite E in Hin; auto.
    destruct (in_bumped now t d i sl' K Hs Hin); auto.
  - destruct (log_download_2_links now t ua d) as [E | (i & Hs & E)];
      rewrite E in Hin; auto.
    destruct (in_bumped now t d i sl' K Hs Hin); auto.
  - unfold transaction, create_share_link in Hin.
    destruct (negb (owns_file_of u d f)); simpl in Hin; auto.
    destruct (existsb _ (share_links d)) eqn:X; simpl in Hin; auto.
    apply in_app_or in Hin as [Hin | [<- | []]]; auto.
    right. right. simpl. split; [apply gen_random_uuid_fresh|].
    split.
    + intros Hm. apply in_map_iff in Hm as (y & Hy & Hyin).
      rewrite <- not_true_iff_false in X. apply X.
      apply existsb_exists. exists y. split; trivial. now apply String.eqb_eq.
    + split; trivial. intros m Hm. simpl in Hm.
      destruct c; simpl in Hm; inversion Hm; simpl; lia.
  - unfold transaction, delete_file in Hin. simpl in Hin.
    apply filter_In in Hin as [Hin _]. auto.
Qed.

Lemma within_limit_increment (now : timestamptz) (x : share_links_row) :
  under_limit x = true -> within_limit (increment_row now x).
Proof.
  unfold under_limit, within_limit. simpl. intros H m Hm. rewrite Hm in H.
  apply Z.ltb_lt in H. lia.
Qed.

Lemma run_operation_invariant (now : timestamptz) (op : operation) (d : db) :
  share_links_keys d -> share_link_invariant d ->
  share_link_invariant (run_operation now op d).
Proof.
  intros K Inv. apply Forall_forall. intros sl' Hin.
  destruct (run_operation_links now op d sl' K Hin) as [H | [(_ & x & _ & Hu & ->) | H]].
  - unfold share_link_invariant in Inv. rewrite Forall_forall in Inv. auto.
  - now apply within_limit_increment.
  - tauto.
Qed.

(** Operations that run one at a time, each from start to return, keep
    [current_downloads <= max_downloads] on the links that have a ceiling;
    no link's counter goes down; and a counter that changed was changed by
    [log_download], by exactly one, on a link that was under its ceiling.
    Calls of [log_download] that overlap are another matter, see
    [overlapping_write_breaks_invariant]. *)
Theorem operations_preserve_invariant (now : timestamptz) (op : operation) (d : db) :
  share_links_keys d ->
  (share_link_invariant d -> share_link_invariant (run_operation now op d))
  /\ (forall i sl sl',
        link_with_id i d = Some sl ->
        link_with_id i (run_operation now op d) = Some sl' ->
        sl_current_downloads sl <= sl_current_downloads sl'
        /\ (sl_current_downloads sl' <> sl_current_downloads sl ->
            is_log_download op = true
            /\ sl_current_downloads sl' = sl_current_downloads sl + 1
            /\ forall m, sl_max_downloads sl = Some m -> sl_current_downloads sl < m)).
Proof.
  intros K. split.
  - now apply run_operation_invariant.
  - intros i sl sl' H H'.
    apply link_with_id_some in H as [Hin Hi].
    apply link_with_id_some in H' as [Hin' Hi'].
    destruct K as [Ki Kt].
    destruct (run_operation_links now op d sl' (conj Ki Kt) Hin')
      as [H | [(L & x & Hx & Hu & ->) | (H & _)]].
    + assert (sl' = sl) by (apply (NoDup_map_inj sl_id (share_links d)); congruence).
      subst sl'. split; [lia | congruence].
    + simpl in Hi'.
      assert (x = sl) by (apply (NoDup_map_inj sl_id (share_links d)); congruence).
      subst x. simpl. split; [lia|]. intros _. repeat split; trivial.
      intros m Hm. unfold under_limit in Hu. rewrite Hm in Hu. now apply Z.ltb_lt.
    + exfalso. apply H. rewrite Hi', <- Hi. now apply in_map.
Qed.

(** [log_download] on the one-download link. *)
Lemma operations_preserve_invariant_witness :
  (share_link_invariant db_once ->
   share_link_invariant
     (run_operation 1000 (Op_log_download "tok" "ua" "10.0.0.1") db_once))
  /\ (forall i sl sl',
        link_with_id i db_once = Some sl ->
        link_with_id i (run_operation 1000 (Op_log_download "tok" "ua" "10.0.0.1") db_once)
        = Some sl' ->
        sl_current_downloads sl <= sl_current_downloads sl'
        /\ (sl_current_downloads sl' <> sl_current_downloads sl ->
            is_log_download (Op_log_download "tok" "ua" "10.0.0.1") = true
            /\ sl_current_downloads sl' = sl_current_downloads sl + 1
            /\ forall m, sl_max_downloads sl = Some m -> sl_current_downloads sl < m)).
Proof.
  apply (operations_preserve_invariant 1000 (Op_log_download "tok" "ua" "10.0.0.1") db_once).
  keys_by_computation.
Defined.

Lemma NoDup_map_filter {A B} (key : A -> B) (p : A -> bool) (l : list A) :
  NoDup (map key l) -> NoDup (map key (filter p l)).
Proof.
  induction l as [|x l IH]; simpl; intros ND; trivial.
  inversion ND as [|? ? Hx ND']; subst.
  destruct (p x); simpl; auto.
  constructor; auto.
  intros H. apply Hx. apply in_map_iff in H as (y & Hy & Hin).
  apply filter_In in Hin as [Hin _]. rewrite <- Hy. now apply in_map.
Qed.

Lemma NoDup_snoc {A} (l : list A) (x : A) :
  NoDup l -> ~ In x l -> NoDup (l ++ [x]).
Proof.
  intros ND Hx. apply NoDup_app; trivial.
  - repeat constructor. simpl. tauto.
  - intros a Ha [<- | []]. contradiction.
Qed.

(** The key constraints of [share_links] hold on after every operation. *)
Lemma run_operation_keys (now : timestamptz) (op : operation) (d : db) :
  share_links_keys d -> share_links_keys (run_operation now op d).
Proof.
  intros [Ki Kt]. unfold share_links_keys.
  destruct op as [t | t ua ip | t ua | u f t e c | u f]; simpl.
  - auto.
  - destruct (log_download_links now t ua ip d) as [E | (i & _ & E)]; rewrite E; auto.
    now rewrite map_bump_ids, map_bump_tokens.
  - destruct (log_download_2_links now t ua d) as [E | (i & _ & E)]; rewrite E; auto.
    now rewrite map_bump_ids, map_bump_tokens.
  - unfold transaction, create_share_link.
    destruct (negb (owns_file_of u d f)); simpl; auto.
    destruct (existsb _ (share_links d)) eqn:X; simpl; auto.
    rewrite !map_app. simpl. split; apply NoDup_snoc; trivial.
    + apply gen_random_uuid_fresh.
    + intros Hm. apply in_map_iff in Hm as (y & Hy & Hyin).
      rewrite <- not_true_iff_false in X. apply X.
      apply existsb_exists. exists y. split; trivial. now apply String.eqb_eq.
  - split; now apply NoDup_map_filter.
Qed.

(** ** Calls one after the other, and calls that overlap *)

(** A call that runs alone takes the four steps of the step function and
    ends as [log_download] does. *)
Lemma run_alone (c : call) (d : db) :
  run_schedule [0; 0; 0; 0]%nat (start [c]) d
  = ([(c, Finished (fst (log_download (c_now c) (c_link_token c) (c_user_agent_text c)
                                       (c_ip_addr c) d)))],
     snd (log_download (c_now c) (c_link_token c) (c_user_agent_text c) (c_ip_addr c) d)).
Proof.
  unfold log_download, transaction at 1 2. rewrite log_download_body_eq.
  unfold start. simpl.
  destruct (20 <=? count_recent_attempts (c_now c) (c_ip_addr c) d); simpl; trivial.
  destruct (10 <=? count_recent_failures (c_now c) (c_link_token c) d); simpl; trivial.
  unfold transaction.
  destruct (log_download_writes _ _ _ _ _ d) as [[a|e] d1]; reflexivity.
Qed.

(** Calls made one after the other keep the invariant. *)
Lemma run_serially_invariant (calls : list call) (d : db) :
  share_links_keys d -> share_link_invariant d ->
  share_links_keys (snd (run_serially calls d))
  /\ share_link_invariant (snd (run_serially calls d)).
Proof.
  revert d. induction calls as [|c calls IH]; intros d K Inv; simpl; auto.
  pose proof (run_operation_keys (c_now c)
                (Op_log_download (c_link_token c) (c_user_agent_text c) (c_ip_addr c)) d K) as K'.
  pose proof (run_operation_invariant (c_now c)
                (Op_log_download (c_link_token c) (c_user_agent_text c) (c_ip_addr c)) d K Inv)
    as Inv'.
  simpl in K', Inv'.
  destruct (log_download (c_now c) (c_link_token c) (c_user_agent_text c) (c_ip_addr c) d)
    as [r d1].
  simpl in K', Inv'. specialize (IH d1 K' Inv').
  destruct (run_serially calls d1) as [rs d2]. exact IH.
Qed.

Lemma log_download_on_link (now : timestamptz) (t ua : string) (ip : inet) (d : db)
    (sl : share_links_row) :
  share_links_keys d -> In sl (share_links d) -> sl_token sl = t ->
  (exists e, log_download now t ua ip d = (Raised e, d))
  \/ (exists log_id d',
        log_download now t ua ip d = (Returned log_id, d')
        /\ In (increment_row now sl) (share_links d')).
Proof.
  intros K Hin Ht.
  destruct (log_download_cases now t ua ip d) as [ | | | | i H1 H2 Hs H3 ]; eauto.
  right. eexists. eexists. split; [reflexivity|].
  apply select_link_id_some in Hs as (s & Hs & Hst & _ & Hi).
  assert (s = sl)
    by (destruct K as [_ Kt]; apply (NoDup_map_inj sl_token (share_links d)); congruence).
  subst s. subst i.
  apply (link_with_id_some (sl_id sl)). now apply after_writes_link.
Qed.

(** Calls for one link, one after the other: the counter grows by the
    number of calls that succeed. *)
Lemma run_serially_counts (calls : list call) :
  forall (d : db) (sl : share_links_row),
    share_links_keys d -> In sl (share_links d) ->
    (forall c, In c calls -> c_link_token c = sl_token sl) ->
    exists sl',
      In sl' (share_links (snd (run_serially calls d)))
      /\ sl_id sl' = sl_id sl /\ sl_token sl' = sl_token sl
      /\ sl_max_downloads sl' = sl_max_downloads sl
      /\ sl_current_downloads sl'
         = sl_current_downloads sl
           + Z.of_nat (List.length (filter succeeded (fst (run_serially calls d)))).
Proof.
  induction calls as [|c calls IH]; intros d sl K Hin Ht; simpl.
  - exists sl. repeat split; trivial. lia.
  - assert (Hc : sl_token sl = c_link_token c) by (symmetry; apply Ht; now left).
    pose proof (run_operation_keys (c_now c)
                  (Op_log_download (c_link_token c) (c_user_agent_text c) (c_ip_addr c)) d K)
      as K'. simpl in K'.
    destruct (log_download_on_link (c_now c) (c_link_token c) (c_user_agent_text c)
                (c_ip_addr c) d sl K Hin Hc) as [(e & E) | (log_id & d' & E & Hin')];
      rewrite E in *; simpl in K'.
    + destruct (IH d sl K Hin) as (sl' & H); [intros; apply Ht; now right|].
      destruct (run_serially calls d) as [rs d2]. simpl in *. now exists sl'.
    + destruct (IH d' (increment_row (c_now c) sl) K' Hin') as (sl' & H1 & H2 & H3 & H4 & H5);
        [intros; simpl; apply Ht; now right|].
      destruct (run_serially calls d') as [rs d2]. simpl in *.
      exists sl'. repeat split; trivial. lia.
Qed.

(** So calls made one after the other never succeed more often than the
    link has downloads left. *)
Lemma run_serially_at_most_N (calls : list call) (d : db) (sl : share_links_row) (N : Z) :
  share_links_keys d -> share_link_invariant d ->
  In sl (share_links d) -> sl_max_downloads sl = Some N ->
  (forall c, In c calls -> c_link_token c = sl_token sl) ->
  Z.of_nat (List.length (filter succeeded (fst (run_serially calls d))))
  <= N - sl_current_downloads sl
  /\ share_link_invariant (snd (run_serially calls d)).
Proof.
  intros K Inv Hin Hm Ht.
  destruct (run_serially_invariant calls d K Inv) as [_ Inv'].
  split; trivial.
  destruct (run_serially_counts calls d sl K Hin Ht) as (sl' & H1 & _ & _ & H4 & H5).
  unfold share_link_invariant in Inv'. rewrite Forall_forall in Inv'.
  specialize (Inv' sl' H1 N). rewrite H4 in Inv'. specialize (Inv' Hm). lia.
Qed.

Lemma leb_false_of_lt (k n : Z) : n < k -> (k <=? n) = false.
Proof. intros H. apply Z.leb_gt. exact H. Qed.

Lemma writes_on_link (now : timestamptz) (ua : string) (ip : inet) (d : db)
    (sl : share_links_row) :
  share_links_keys d -> In sl (share_links d) ->
  sl_current_downloads sl < int4_max ->
  transaction (log_download_writes now (sl_token sl) ua ip (Some (sl_id sl))) d
  = (Returned (gen_random_uuid (map dl_id (download_logs d))),
     after_writes now (sl_token sl) ua ip (sl_id sl) d).
Proof.
  intros K Hin Hc.
  destruct (log_download_writes_some now (sl_token sl) ua ip (sl_id sl) d)
    as [[_ (x & Hx & Hi & Hf)] | [E _]].
  - assert (x = sl)
      by (destruct K as [Ki _]; now apply (NoDup_map_inj sl_id (share_links d))).
    subst x. lia.
  - unfold transaction. now rewrite E.
Qed.

(** The overlap in general: whenever two calls for a usable link are both
    let through by the rate limiter, and the second reads before the first
    writes, both succeed and the counter goes up by two, whatever the
    ceiling. *)
Lemma overlapping_calls_in_general (a b : call) (d : db) (sl : share_links_row) :
  share_links_keys d -> In sl (share_links d) ->
  c_link_token a = sl_token sl -> c_link_token b = sl_token sl ->
  usable (c_now a) sl = true -> usable (c_now b) sl = true ->
  count_recent_attempts (c_now a) (c_ip_addr a) d < 20 ->
  count_recent_failures (c_now a) (c_link_token a) d < 10 ->
  count_recent_attempts (c_now b) (c_ip_addr b) d < 20 ->
  count_recent_failures (c_now b) (c_link_token b) d < 10 ->
  sl_current_downloads sl + 1 < int4_max ->
  exists log_a log_b d' sl',
    run_schedule overlapping_schedule (start [a; b]) d
    = ([(a, Finished (Returned log_a)); (b, Finished (Returned log_b))], d')
    /\ link_with_id (sl_id sl) d' = Some sl'
    /\ sl_max_downloads sl' = sl_max_downloads sl
    /\ sl_current_downloads sl' = sl_current_downloads sl + 2.
Proof.
  intros K Hin Ta Tb Ua Ub A1 A2 B1 B2 Hc.
  pose proof (select_link_id_of_usable (c_now a) d sl K Hin Ua) as Sa.
  pose proof (select_link_id_of_usable (c_now b) d sl K Hin Ub) as Sb.
  rewrite <- Ta in Sa. rewrite <- Tb in Sb.
  unfold overlapping_schedule, start. cbn [map run_schedule advance step].
  rewrite (leb_false_of_lt _ _ B1). cbn [advance step].
  rewrite (leb_false_of_lt _ _ B2). cbn [advance step].
  rewrite Sb.
  rewrite (leb_false_of_lt _ _ A1). cbn [advance step].
  rewrite (leb_false_of_lt _ _ A2). cbn [advance step].
  rewrite Sa, Ta.
  rewrite (writes_on_link (c_now a) _ _ d sl K Hin) by lia.
  cbn [advance step].
  set (d1 := after_writes (c_now a) (sl_token sl) (c_user_agent_text a) (c_ip_addr a)
               (sl_id sl) d).
  assert (K1 : share_links_keys d1).
  { destruct K as [Ki Kt]. unfold share_links_keys, d1, after_writes. simpl.
    now rewrite map_bump_ids, map_bump_tokens. }
  assert (Hin1 : In (increment_row (c_now a) sl) (share_links d1)).
  { apply (link_with_id_some (sl_id sl)). now apply after_writes_link. }
  rewrite Tb.
  pose proof (writes_on_link (c_now b) (c_user_agent_text b) (c_ip_addr b) d1
                (increment_row (c_now a) sl) K1 Hin1) as W.
  cbn [increment_row sl_token sl_id sl_current_downloads] in W. rewrite W by lia.
  eexists. eexists. eexists. eexists. split; [reflexivity|].
  split; [|split].
  - apply (after_writes_link (c_now b) (sl_token sl) (c_user_agent_text b) (c_ip_addr b) d1
             (increment_row (c_now a) sl) K1 Hin1).
  - reflexivity.
  - simpl. lia.
Qed.

(** C1.  Two calls for a link with [max_downloads = 1] and
    [current_downloads = 0], the second reading the link before the first
    has written: both return a log id and the counter ends at 2.  The same
    two calls made one after the other end in one success and one
    rejection. *)
Theorem overlapping_calls_both_succeed :
  sl_max_downloads link_once = Some 1
  /\ sl_current_downloads link_once = 0
  /\ (exists d',
        run_schedule overlapping_schedule (start [call_a; call_b]) db_once
        = ([(call_a, Finished (Returned 1%N)); (call_b, Finished (Returned 2%N))], d')
        /\ option_map sl_current_downloads (link_with_token "tok" d') = Some 2
        /\ option_map sl_max_downloads (link_with_token "tok" d') = Some (Some 1)
        /\ ~ share_link_invariant d')
  /\ fst (run_serially [call_a; call_b] db_once)
     = [Returned 1%N; Raised invalid_link_message].
Proof.
  split; [reflexivity|]. split; [reflexivity|]. split; [|reflexivity].
  eexists. split; [reflexivity|]. split; [reflexivity|]. split; [reflexivity|].
  intros Inv. inversion Inv as [|x l H _]; subst.
  specialize (H 1 eq_refl). simpl in H. lia.
Qed.

(** C2.  [log_download] does not keep [current_downloads <= max_downloads]
    when calls overlap.  The two calls for the one-download link again:
    [call_b] has passed the check of the ceiling, [call_a] has returned.
    The invariant holds at the start and still holds now, with the counter
    at 1 of 1.  The next step is [call_b]'s [UPDATE]; it does not look at
    the ceiling again, returns a log id and leaves the counter at 2 of 1. *)
Theorem overlapping_write_breaks_invariant :
  share_links_keys db_once /\ share_link_invariant db_once
  /\ fst before_last_write
     = [(call_a, Finished (Returned 1%N)); (call_b, AtWrites (Some 1%N))]
  /\ share_links_keys (snd before_last_write)
  /\ share_link_invariant (snd before_last_write)
  /\ option_map sl_current_downloads (link_with_token "tok" (snd before_last_write))
     = Some 1
  /\ exists d',
       step call_b (AtWrites (Some 1%N)) (snd before_last_write)
       = (Finished (Returned 2%N), d')
       /\ option_map sl_current_downloads (link_with_token "tok" d') = Some 2
       /\ option_map sl_max_downloads (link_with_token "tok" d') = Some (Some 1)
       /\ ~ share_link_invariant d'.
Proof.
  split; [keys_by_computation|].
  split; [repeat constructor; intros m E; inversion E; simpl; lia|].
  split; [reflexivity|].
  split; [keys_by_computation|].
  split; [repeat constructor; intros m E; inversion E; simpl; lia|].
  split; [reflexivity|].
  eexists. split; [reflexivity|]. split; [reflexivity|]. split; [reflexivity|].
  intros Inv. inversion Inv as [|x l H _]; subst.
  specialize (H 1 eq_refl). simpl in H. lia.
Qed.

(** ** The lookup *)

Lemma get_share_link_by_token_length (now : timestamptz) (t : string) (d : db) :
  (List.length (get_share_link_by_token now t d) <= 1)%nat.
Proof.
  unfold get_share_link_by_token. rewrite length_firstn. apply Nat.le_min_l.
Qed.

Lemma in_firstn {A} (n : nat) (l : list A) (x : A) : In x (firstn n l) -> In x l.
Proof.
  revert l. induction n as [|n IH]; intros [|y l]; simpl; try tauto.
  intros [-> | H]; auto.
Qed.

Lemma get_share_link_by_token_in (now : timestamptz) (t : string) (d : db)
    (row : share_link_info) :
  In row (get_share_link_by_token now t d) ->
  exists sl f,
    In sl (share_links d) /\ In f (files d) /\ f_id f = sl_file_id sl
    /\ sl_token sl = t /\ usable now sl = true /\ row = join_row sl f.
Proof.
  unfold get_share_link_by_token. intros H. apply in_firstn in H.
  apply in_flat_map in H as (sl & Hsl & H).
  apply filter_In in Hsl as [Hsl Hp].
  apply in_map_iff in H as (f & <- & Hf).
  apply filter_In in Hf as [Hf Hid].
  apply andb_true_iff in Hp as [Ht Hu].
  apply String.eqb_eq in Ht. apply N.eqb_eq in Hid.
  exists sl, f. repeat split; trivial.
Qed.

Lemma filter_nil {A} (p : A -> bool) (l : list A) :
  (forall x, In x l -> p x = false) -> filter p l = [].
Proof.
  induction l as [|x l IH]; simpl; intros H; trivial.
  rewrite (H x) by now left. apply IH. intros y Hy. apply H. now right.
Qed.

(** The lookup is empty when no link with the token is usable. *)
Lemma get_share_link_by_token_nil (now : timestamptz) (t : string) (d : db) :
  (forall sl, In sl (share_links d) -> sl_token sl = t -> usable now sl = false) ->
  get_share_link_by_token now t d = [].
Proof.
  intros H. unfold get_share_link_by_token. rewrite filter_nil; trivial.
  intros sl Hin. destruct (String.eqb (sl_token sl) t) eqn:E; simpl; trivial.
  apply String.eqb_eq in E. auto.
Qed.

Lemma select_share_links_anon (d : db) : select_share_links None d = [].
Proof.
  unfold select_share_links. apply filter_nil. intros sl _.
  unfold owns_file_of. destruct (existsb _ (files d)) eqn:E; trivial.
  apply existsb_exists in E as (f & _ & H).
  apply andb_true_iff in H as [_ H]. discriminate.
Qed.

(** C7.  [get_share_link_by_token] returns at most one row; a row it
    returns is a link with exactly the given token that is active, not
    expired and under its limit, joined with its file; and an operation
    open to callers who are not signed in hands back a share link only for
    the token it was given. *)
Theorem get_share_link_by_token_exact (now : timestamptz) (t : string) (d : db) :
  (List.length (get_share_link_by_token now t d) <= 1)%nat
  /\ (forall row,
        In row (get_share_link_by_token now t d) ->
        sli_token row = t
        /\ sli_is_active row = true
        /\ (sli_expires_at row = None
            \/ exists e, sli_expires_at row = Some e /\ now < e)
        /\ (sli_max_downloads row = None
            \/ exists m, sli_max_downloads row = Some m /\ sli_current_downloads row < m)
        /\ exists sl f,
             In sl (share_links d) /\ In f (files d) /\ f_id f = sl_file_id sl
             /\ row = join_row sl f)
  /\ (forall op tok,
        In tok (tokens_returned now op d) -> token_supplied op = Some tok).
Proof.
  split; [apply get_share_link_by_token_length|]. split.
  - intros row H.
    apply get_share_link_by_token_in in H as (sl & f & Hsl & Hf & Hid & Ht & Hu & ->).
    unfold usable, not_expired, under_limit in Hu.
    apply andb_true_iff in Hu as [Hu Hl]. apply andb_true_iff in Hu as [Ha He].
    simpl. split; trivial. split; [now apply Bool.eqb_prop in Ha|]. split; [|split].
    + destruct (sl_expires_at sl) as [e|]; auto.
      right. exists e. split; trivial. now apply Z.ltb_lt.
    + destruct (sl_max_downloads sl) as [m|]; auto.
      right. exists m. split; trivial. now apply Z.ltb_lt.
    + now exists sl, f.
  - intros [ | t0 | t0 ua ip | t0 ua] tok; simpl.
    + rewrite select_share_links_anon. simpl. tauto.
    + intros H. apply in_map_iff in H as (row & <- & H).
      apply get_share_link_by_token_in in H as (sl & f & _ & _ & _ & Ht & _ & ->).
      simpl. now f_equal.
    + tauto.
    + tauto.
Qed.

(** ** The handler *)

Section HandlerProperties.

Variable inet_in : string -> option inet.
Variable createSignedUrl : string -> Z -> option string.

(** A request with a token for which the lookup finds nothing is answered
    404 and leaves the database alone. *)
Lemma handler_lookup_empty (clk : clock) (req : request) (d : db) (token : string) :
  req_method req <> "OPTIONS" -> req_json req = Some (Some token) ->
  truthy token = true ->
  get_share_link_by_token (t_lookup clk) token d = [] ->
  handler inet_in createSignedUrl clk req d = (json_response 404 (JsonError "Invalid or expired link"), d).
Proof.
  intros Hm Hj Ht Hl. unfold handler.
  apply String.eqb_neq in Hm. rewrite Hm, Hj, Ht, Hl. reflexivity.
Qed.

(** So is a request with a token that no link carries. *)
Lemma handler_unknown_token (clk : clock) (req : request) (d : db) (token : string) :
  req_method req <> "OPTIONS" -> req_json req = Some (Some token) ->
  truthy token = true ->
  (forall sl, In sl (share_links d) -> sl_token sl <> token) ->
  handler inet_in createSignedUrl clk req d
  = (json_response 404 (JsonError "Invalid or expired link"), d).
Proof.
  intros Hm Hj Ht H. apply (handler_lookup_empty clk req d token); trivial.
  apply get_share_link_by_token_nil. intros sl Hin E. now destruct (H sl Hin).
Qed.

(** The handler writes to the database through [log_download] and in no
    other way. *)
Lemma handler_database (clk : clock) (req : request) (d : db) :
  snd (handler inet_in createSignedUrl clk req d) = d
  \/ exists token ip_addr,
       req_json req = Some (Some token)
       /\ snd (handler inet_in createSignedUrl clk req d)
          = snd (log_download (t_log clk) token (userAgent_of req) ip_addr d).
Proof.
  unfold handler.
  destruct (String.eqb (req_method req) "OPTIONS"); auto.
  destruct (req_json req) as [[token|]|]; auto.
  destruct (negb (truthy token)); auto.
  destruct (get_share_link_by_token (t_lookup clk) token d) as [|shareLink rest]; auto.
  destruct (no_longer_valid (t_check clk) shareLink); auto.
  unfold rpc_log_download.
  destruct (inet_in (ipAddress_of req)) as [ip_addr|]; simpl; auto.
  right. exists token, ip_addr. split; trivial.
  destruct (log_download (t_log clk) token (userAgent_of req) ip_addr d) as [[a|e] d'];
    simpl; trivial.
  destruct (createSignedUrl (sli_storage_path shareLink) 3600); reflexivity.
Qed.

(** A request that gets as far as [log_download]. *)
Lemma handler_reaches_log_download (clk : clock) (req : request) (d : db)
    (token : string) (shareLink : share_link_info) (rest : list share_link_info) :
  req_method req <> "OPTIONS" -> req_json req = Some (Some token) ->
  truthy token = true ->
  get_share_link_by_token (t_lookup clk) token d = shareLink :: rest ->
  no_longer_valid (t_check clk) shareLink = false ->
  handler inet_in createSignedUrl clk req d
  = match rpc_log_download inet_in (t_log clk) token (userAgent_of req)
                           (ipAddress_of req) d with
    | (Raised message, d') =>
        (json_response 403
           (JsonError (if truthy message then message else "Failed to log download")),
         d')
    | (Returned _, d') =>
        match createSignedUrl (sli_storage_path shareLink) 3600 with
        | None => (json_response 500 (JsonError "Failed to generate download URL"), d')
        | Some url =>
            (json_response 200 (JsonDownload url (sli_original_filename shareLink)), d')
        end
    end.
Proof.
  intros Hm Hj Ht Hl Hv. unfold handler.
  apply String.eqb_neq in Hm. rewrite Hm, Hj, Ht, Hl, Hv. reflexivity.
Qed.


(** [new Date] keeps the order of instants. *)
Lemma js_Date_monotone (a b : timestamptz) : a <= b -> js_Date a <= js_Date b.
Proof. intros H. unfold js_Date. apply Z.div_le_mono; lia. Qed.

Lemma recheck_of_usable (now : timestamptz) (sl : share_links_row) (f : files_row) :
  usable now sl = true -> no_longer_valid (js_Date now) (join_row sl f) = false.
Proof.
  unfold usable, not_expired, under_limit, no_longer_valid, isExpired, limitReached.
  simpl. intros H.
  apply andb_true_iff in H as [H Hl]. apply andb_true_iff in H as [Ha He].
  apply Bool.eqb_prop in Ha. rewrite Ha. simpl.
  destruct (sl_expires_at sl) as [e|].
  - apply Z.ltb_lt in He.
    assert (js_Date now <= js_Date e) by (apply js_Date_monotone; lia).
    replace (js_Date e <? js_Date now) with false by (symmetry; apply Z.ltb_ge; lia).
    simpl. destruct (sl_max_downloads sl) as [m|]; trivial.
    apply Z.ltb_lt in Hl. destruct (m =? 0); trivial. apply Z.leb_gt. lia.
  - simpl. destruct (sl_max_downloads sl) as [m|]; trivial.
    apply Z.ltb_lt in Hl. destruct (m =? 0); trivial. apply Z.leb_gt. lia.
Qed.

Lemma rpc_log_download_messages (now : timestamptz) (t ua ip_text : string)
    (d d' : db) (message : string) :
  rpc_log_download inet_in now t ua ip_text d = (Raised message, d') ->
  d' = d
  /\ (message = ip_rate_limit_message \/ message = token_rate_limit_message
      \/ message = invalid_link_message \/ message = integer_out_of_range
      \/ message = "invalid input syntax for type inet: "
                     ++ double_quote ++ ip_text ++ double_quote).
Proof.
  unfold rpc_log_download. destruct (inet_in ip_text) as [ip|].
  - intros H. pose proof (log_download_cases now t ua ip d) as C. rewrite H in C.
    inversion C; subst; auto 6.
  - unfold raise_exception. intros H. inversion H; subst. auto 6.
Qed.

(** C9.  With the handler's clock reading the instant of the lookup, every
    row the lookup returns passes the handler's own validity check, and the
    handler never answers 403 "Link is no longer valid". *)
Theorem recheck_never_fails (clk : clock) (req : request) (d : db) :
  t_check clk = js_Date (t_lookup clk) ->
  (forall token shareLink,
      In shareLink (get_share_link_by_token (t_lookup clk) token d) ->
      sli_is_active shareLink = true
      /\ isExpired (t_check clk) shareLink = false
      /\ limitReached shareLink = false
      /\ no_longer_valid (t_check clk) shareLink = false)
  /\ fst (handler inet_in createSignedUrl clk req d)
     <> json_response 403 (JsonError "Link is no longer valid").
Proof.
  intros Hc.
  assert (pass : forall token shareLink,
             In shareLink (get_share_link_by_token (t_lookup clk) token d) ->
             no_longer_valid (t_check clk) shareLink = false).
  { intros token shareLink H.
    apply get_share_link_by_token_in in H as (sl & f & _ & _ & _ & _ & Hu & ->).
    rewrite Hc. now apply recheck_of_usable. }
  split.
  - intros token shareLink H. specialize (pass token shareLink H).
    unfold no_longer_valid in pass.
    apply orb_false_iff in pass as [pass Hl]. apply orb_false_iff in pass as [Ha He].
    apply negb_false_iff in Ha. repeat split; trivial.
    unfold no_longer_valid. now rewrite Ha, He, Hl.
  - unfold handler.
    destruct (String.eqb (req_method req) "OPTIONS"); [discriminate|].
    destruct (req_json req) as [[token|]|]; try discriminate.
    destruct (negb (truthy token)); [discriminate|].
    destruct (get_share_link_by_token (t_lookup clk) token d) as [|shareLink rest] eqn:L;
      [discriminate|].
    rewrite (pass token shareLink) by (rewrite L; now left).
    destruct (rpc_log_download inet_in (t_log clk) token (userAgent_of req)
                (ipAddress_of req) d) as [[log_id|message] d'] eqn:R.
    + destruct (createSignedUrl (sli_storage_path shareLink) 3600); discriminate.
    + apply rpc_log_download_messages in R as [_ [-> | [-> | [-> | [-> | ->]]]]];
        simpl; discriminate.
Qed.

(** C6, amended.  A request whose token belongs to a link that is not
    usable (switched off, expired or used up) is answered 404 with the one
    text "Invalid or expired link", whatever the reason. *)
Theorem unusable_link_answer (clk : clock) (req : request) (d : db)
    (token : string) (sl : share_links_row) :
  req_method req <> "OPTIONS" -> req_json req = Some (Some token) ->
  truthy token = true ->
  share_links_keys d ->
  In sl (share_links d) -> sl_token sl = token -> usable (t_lookup clk) sl = false ->
  fst (handler inet_in createSignedUrl clk req d)
  = json_response 404 (JsonError "Invalid or expired link").
Proof.
  intros Hm Hj Ht [_ Kt] Hin Hs Hu.
  rewrite (handler_lookup_empty clk req d token); trivial.
  apply get_share_link_by_token_nil. intros x Hx Hxt.
  assert (x = sl) by (apply (NoDup_map_inj sl_token (share_links d)); congruence).
  now subst x.
Qed.

(** C8, amended.  When [log_download] fails, the handler answers 403 and
    puts the message the store raised into the body as it is.  For a
    request over a rate limit that is the text of the window that tripped:
    one text for the per-address window, another for the per-token
    window. *)
Theorem log_download_error_forwarded (clk : clock) (req : request) (d : db)
    (token : string) (shareLink : share_link_info) (rest : list share_link_info) :
  req_method req <> "OPTIONS" -> req_json req = Some (Some token) ->
  truthy token = true ->
  get_share_link_by_token (t_lookup clk) token d = shareLink :: rest ->
  no_longer_valid (t_check clk) shareLink = false ->
  (forall message d',
      rpc_log_download inet_in (t_log clk) token (userAgent_of req) (ipAddress_of req) d
      = (Raised message, d') ->
      handler inet_in createSignedUrl clk req d
      = (json_response 403
           (JsonError (if truthy message then message else "Failed to log download")),
         d'))
  /\ (forall ip_addr,
        inet_in (ipAddress_of req) = Some ip_addr ->
        20 <= count_recent_attempts (t_log clk) ip_addr d ->
        handler inet_in createSignedUrl clk req d
        = (json_response 403 (JsonError ip_rate_limit_message), d))
  /\ (forall ip_addr,
        inet_in (ipAddress_of req) = Some ip_addr ->
        count_recent_attempts (t_log clk) ip_addr d < 20 ->
        10 <= count_recent_failures (t_log clk) token d ->
        handler inet_in createSignedUrl clk req d
        = (json_response 403 (JsonError token_rate_limit_message), d))
  /\ ip_rate_limit_message <> token_rate_limit_message.
Proof.
  intros Hm Hj Ht Hl Hv.
  pose proof (handler_reaches_log_download clk req d token shareLink rest Hm Hj Ht Hl Hv)
    as E.
  split; [|split; [|split]].
  - intros message d' R. now rewrite E, R.
  - intros ip_addr Hip H. rewrite E. unfold rpc_log_download. rewrite Hip.
    destruct (log_download_cases (t_log clk) token (userAgent_of req) ip_addr d);
      try lia. reflexivity.
  - intros ip_addr Hip H1 H2. rewrite E. unfold rpc_log_download. rewrite Hip.
    destruct (log_download_cases (t_log clk) token (userAgent_of req) ip_addr d);
      try lia. reflexivity.
  - discriminate.
Qed.

End HandlerProperties.

(** C5.  A POST with a token no link carries is answered 404 and no row is
    written to [download_attempts]: the handler stops at the lookup.  A
    direct call of [log_download] with that token inserts the failed
    attempt and then raises, which undoes the insert. *)
Theorem unknown_token_leaves_no_attempt :
  (forall sl, In sl (share_links db_once) -> sl_token sl <> "nope")
  /\ handler sample_inet_in sample_createSignedUrl sample_clock
       (post_token "nope" "10.0.0.1") db_once
     = (json_response 404 (JsonError "Invalid or expired link"), db_once)
  /\ download_attempts db_once = []
  /\ download_attempts
       (snd (log_download_body 1000 "nope" "agent" "10.0.0.1" db_once))
     = [mk_download_attempts_row 1%N "10.0.0.1" "nope" 1000 false]
  /\ log_download 1000 "nope" "agent" "10.0.0.1" db_once
     = (Raised invalid_link_message, db_once).
Proof.
  split; [|repeat split].
  intros sl [<- | []]. discriminate.
Qed.

(** C6, the claim as stated, fails: an expired link and a used-up link get
    the same answer, and no attempt is written for either. *)
Lemma expired_and_exhausted_same_answer :
  sl_expires_at link_expired = Some 500
  /\ 500 < t_lookup sample_clock
  /\ sl_max_downloads link_exhausted = Some 5
  /\ sl_current_downloads link_exhausted = 5
  /\ handler sample_inet_in sample_createSignedUrl sample_clock
       (post_token "tok" "10.0.0.1") db_expired
     = (json_response 404 (JsonError "Invalid or expired link"), db_expired)
  /\ handler sample_inet_in sample_createSignedUrl sample_clock
       (post_token "tok" "10.0.0.1") db_exhausted
     = (json_response 404 (JsonError "Invalid or expired link"), db_exhausted)
  /\ download_attempts db_expired = []
  /\ download_attempts db_exhausted = []
  /\ fst (log_download 1000 "tok" "agent" "10.0.0.1" db_expired)
     = fst (log_download 1000 "tok" "agent" "10.0.0.1" db_exhausted).
Proof. repeat split. Qed.

(** The expired link. *)
Lemma unusable_link_answer_witness :
  fst (handler sample_inet_in sample_createSignedUrl sample_clock
         (post_token "tok" "10.0.0.1") db_expired)
  = json_response 404 (JsonError "Invalid or expired link").
Proof.
  apply (unusable_link_answer sample_inet_in sample_createSignedUrl sample_clock
           (post_token "tok" "10.0.0.1") db_expired "tok" link_expired).
  - discriminate.
  - reflexivity.
  - reflexivity.
  - keys_by_computation.
  - simpl. tauto.
  - reflexivity.
  - reflexivity.
Defined.

(** C8, the claim as stated, fails: the answer tells the two windows
    apart, and a store error that is no rate limit reaches the client in
    the store's own words. *)
Lemma rate_limit_answers_differ :
  handler sample_inet_in sample_createSignedUrl sample_clock
    (post_token "tok" "10.0.0.1") db_ip_window
  = (json_response 403
       (JsonError "Rate limit exceeded. Too many download attempts from this IP address."),
     db_ip_window)
  /\ handler sample_inet_in sample_createSignedUrl sample_clock
       (post_token "tok" "10.0.0.1") db_token_window
     = (json_response 403
          (JsonError "Too many failed attempts for this link. Please try again later."),
        db_token_window)
  /\ fst (handler sample_inet_in sample_createSignedUrl sample_clock
            (post_token "tok" "10.0.0.1") db_ip_window)
     <> fst (handler sample_inet_in sample_createSignedUrl sample_clock
               (post_token "tok" "10.0.0.1") db_token_window)
  /\ handler sample_inet_in sample_createSignedUrl sample_clock
       (post_token "tok" "10.0.0.1") db_full_counter
     = (json_response 403 (JsonError "integer out of range"), db_full_counter).
Proof.
  split; [vm_compute; reflexivity|]. split; [vm_compute; reflexivity|].
  split; [vm_compute; discriminate|]. vm_compute; reflexivity.
Qed.

(** The per-address window, as the client sees it. *)
Lemma log_download_error_forwarded_witness :
  handler sample_inet_in sample_createSignedUrl sample_clock
    (post_token "tok" "10.0.0.1") db_ip_window
  = (json_response 403 (JsonError ip_rate_limit_message), db_ip_window).
Proof.
  refine (proj1 (proj2
    (log_download_error_forwarded sample_inet_in sample_createSignedUrl sample_clock
       (post_token "tok" "10.0.0.1") db_ip_window "tok"
       (join_row link_once sample_file) [] _ _ _ _ _)) "10.0.0.1" _ _).
  - discriminate.
  - reflexivity.
  - reflexivity.
  - reflexivity.
  - reflexivity.
  - reflexivity.
  - vm_compute. discriminate.
Defined.

(** The one-download link, looked up and checked at the same instant. *)
Lemma recheck_never_fails_witness :
  (forall token shareLink,
      In shareLink (get_share_link_by_token (t_lookup sample_clock) token db_once) ->
      sli_is_active shareLink = true
      /\ isExpired (t_check sample_clock) shareLink = false
      /\ limitReached shareLink = false
      /\ no_longer_valid (t_check sample_clock) shareLink = false)
  /\ fst (handler sample_inet_in sample_createSignedUrl sample_clock
            (post_token "tok" "10.0.0.1") db_once)
     <> json_response 403 (JsonError "Link is no longer valid").
Proof.
  apply (recheck_never_fails sample_inet_in sample_createSignedUrl sample_clock
           (post_token "tok" "10.0.0.1") db_once).
  reflexivity.
Defined.

(** * Further properties of the code *)

(** ** The rate limiter over time *)

Lemma filter_length_zero {A} (p : A -> bool) (l : list A) :
  (forall x, In x l -> p x = false) -> List.length (filter p l) = 0%nat.
Proof. intros H. now rewrite filter_nil. Qed.

(** X1.  The per-address window slides: once every attempt of an address is
    an hour old or older, none of them counts any more, and [log_download]
    does not turn the address away with the rate-limit message.  An attempt
    exactly one hour old is already outside the window. *)
Theorem ip_window_slides (now : timestamptz) (t ua : string) (ip : inet) (d : db) :
  (forall a, In a (download_attempts d) -> da_ip_address a = ip ->
             da_attempted_at a <= now - one_hour) ->
  count_recent_attempts now ip d = 0
  /\ fst (log_download now t ua ip d) <> Raised ip_rate_limit_message.
Proof.
  intros H.
  assert (Z0 : count_recent_attempts now ip d = 0).
  { unfold count_recent_attempts. rewrite filter_length_zero; trivial.
    intros a Ha. destruct (String.eqb (da_ip_address a) ip) eqn:E; simpl; trivial.
    apply String.eqb_eq in E. apply Z.ltb_ge. auto. }
  split; trivial.
  destruct (log_download_cases now t ua ip d); simpl; try discriminate. lia.
Qed.

(** Twenty attempts made at time 900 are out of the window at time
    900 + one hour. *)
Lemma ip_window_slides_witness :
  count_recent_attempts (900 + one_hour) "10.0.0.1" db_ip_window = 0
  /\ fst (log_download (900 + one_hour) "tok" "ua" "10.0.0.1" db_ip_window)
     <> Raised ip_rate_limit_message.
Proof.
  apply (ip_window_slides (900 + one_hour) "tok" "ua" "10.0.0.1" db_ip_window).
  intros a Ha _. vm_compute in Ha.
  repeat (destruct Ha as [<- | Ha]; [vm_compute; discriminate|]).
  contradiction.
Defined.

(** The attempts of an address from time [T] on. *)
Lemma attempts_since_le_recent (T now : timestamptz) (ip : inet) (d : db) :
  now < T + one_hour ->
  Z.of_nat (List.length (filter (fun a => String.eqb (da_ip_address a) ip
                                          && (T <=? da_attempted_at a))
                                (download_attempts d)))
  <= count_recent_attempts now ip d.
Proof.
  intros H. unfold count_recent_attempts.
  induction (download_attempts d) as [|a l IH]; simpl; [lia|].
  destruct (String.eqb (da_ip_address a) ip); simpl; trivial.
  destruct (T <=? da_attempted_at a) eqn:E1.
  - apply Z.leb_le in E1.
    replace (now - one_hour <? da_attempted_at a) with true
      by (symmetry; apply Z.ltb_lt; lia).
    simpl. lia.
  - destruct (now - one_hour <? da_attempted_at a); simpl; lia.
Qed.

(** X2.  Calls from one address, made one after the other within a span
    shorter than an hour: at most twenty of them succeed, whichever links
    they ask for, and fewer by the number of attempts the address already
    has in that span. *)
Theorem ip_cap_per_hour (calls : list call) (ip : inet) (T : timestamptz) :
  forall d : db,
    (forall c, In c calls -> c_ip_addr c = ip /\ T <= c_now c < T + one_hour) ->
    Z.of_nat (List.length (filter succeeded (fst (run_serially calls d))))
    <= Z.max 0
         (20 - Z.of_nat (List.length
                           (filter (fun a => String.eqb (da_ip_address a) ip
                                             && (T <=? da_attempted_at a))
                                   (download_attempts d)))).
Proof.
  induction calls as [|c calls IH]; intros d H.
  { simpl. lia. }
  destruct (H c (or_introl eq_refl)) as [Hip Ht].
  assert (H' : forall c0, In c0 calls ->
                          c_ip_addr c0 = ip /\ T <= c_now c0 < T + one_hour)
    by (intros; apply H; now right).
  pose proof (attempts_since_le_recent T (c_now c) ip d (proj2 Ht)) as Hle.
  cbn [run_serially]. rewrite Hip.
  set (since := fun a => String.eqb (da_ip_address a) ip && (T <=? da_attempted_at a)) in *.
  destruct (log_download_cases (c_now c) (c_link_token c) (c_user_agent_text c) ip d)
    as [ | | | | i H1 H2 H3 H4 ].
  1-4: specialize (IH d H'); destruct (run_serially calls d) as [rs d2];
       cbn [fst filter succeeded] in *; lia.
  specialize (IH (after_writes (c_now c) (c_link_token c) (c_user_agent_text c) ip i d) H').
  destruct (run_serially calls _) as [rs d2].
  cbn [fst filter succeeded List.length] in *.
  unfold after_writes in IH. cbn [download_attempts] in IH.
  rewrite filter_app, length_app in IH.
  assert (E : since (mk_download_attempts_row
                       (gen_random_uuid (map da_id (download_attempts d)))
                       ip (c_link_token c) (c_now c) true) = true).
  { unfold since. cbn [da_ip_address da_attempted_at].
    rewrite String.eqb_refl. apply Z.leb_le. lia. }
  cbn [filter] in IH. rewrite E in IH. cbn [List.length] in IH.
  lia.
Qed.

(** Twenty-five calls on a link without a ceiling, from an address with
    five attempts on record in the span: fifteen succeed, which is the
    bound. *)
Lemma ip_cap_per_hour_witness :
  List.length (filter succeeded (fst (run_serially calls_25 db_unlimited))) = 15%nat
  /\ Z.max 0
       (20 - Z.of_nat (List.length
                         (filter (fun a => String.eqb (da_ip_address a) "10.0.0.1"
                                           && (900 <=? da_attempted_at a))
                                 (download_attempts db_unlimited)))) = 15
  /\ Z.of_nat (List.length (filter succeeded (fst (run_serially calls_25 db_unlimited))))
     <= Z.max 0
          (20 - Z.of_nat (List.length
                            (filter (fun a => String.eqb (da_ip_address a) "10.0.0.1"
                                              && (900 <=? da_attempted_at a))
                                    (download_attempts db_unlimited)))).
Proof.
  split; [vm_compute; reflexivity|]. split; [vm_compute; reflexivity|].
  apply (ip_cap_per_hour calls_25 "10.0.0.1" 900 db_unlimited).
  intros c Hc. apply repeat_spec in Hc. subst c. vm_compute. repeat split; congruence.
Defined.

(** ** The ledger of attempts *)

Lemma log_download_2_cases (now : timestamptz) (t ua : string) (d : db) :
  (exists e, log_download_2 now t ua d = (Raised e, d))
  \/ exists i,
       select_link_id now t d = Some i
       /\ (forall sl, In sl (share_links d) -> sl_id sl = i ->
                      sl_current_downloads sl < int4_max)
       /\ log_download_2 now t ua d
          = (Returned (gen_random_uuid (map dl_id (download_logs d))),
             mk_db (files d) (map (bump now i) (share_links d))
                   (download_logs d
                      ++ [mk_download_logs_row
                            (gen_random_uuid (map dl_id (download_logs d)))
                            i None (Some ua) now])
                   (download_attempts d)).
Proof.
  unfold log_download_2, transaction, log_download_2_body, bind, query,
    raise_exception, insert_download_log, ret.
  destruct (select_link_id now t d) as [i|] eqn:E; [|left; eauto].
  match goal with
  | |- context [update_current_downloads now i ?d1] =>
      destruct (update_current_downloads_cases now i d1) as [[U _] | [U H]];
      rewrite U
  end.
  - left. eauto.
  - right. exists i. repeat split; trivial.
Qed.

Lemma run_operation_attempts (now : timestamptz) (op : operation) (d : db) :
  download_attempts (run_operation now op d) = download_attempts d
  \/ exists a, da_success a = true
               /\ download_attempts (run_operation now op d)
                  = (download_attempts d ++ [a])%list.
Proof.
  destruct op as [t | t ua ip | t ua | u f t e c | u f]; simpl; auto.
  - destruct (log_download_cases now t ua ip d); simpl; auto.
    right. eexists. split; [|reflexivity]. reflexivity.
  - destruct (log_download_2_cases now t ua d) as [(e & E) | (i & _ & _ & E)];
      rewrite E; auto.
  - unfold transaction, create_share_link.
    destruct (negb (owns_file_of u d f)); simpl; auto.
    destruct (existsb _ (share_links d)); simpl; auto.
Qed.

(** X3.  No operation ever adds a failed attempt to [download_attempts]:
    the rows with [success = false] are the same after it as before, and
    so is every count of the per-token failure window, for every token and
    at every instant. *)
Theorem failed_attempts_never_grow (now : timestamptz) (op : operation) (d : db) :
  failed_attempts (run_operation now op d) = failed_attempts d
  /\ forall now' t,
       count_recent_failures now' t (run_operation now op d)
       = count_recent_failures now' t d.
Proof.
  unfold failed_attempts, count_recent_failures.
  destruct (run_operation_attempts now op d) as [E | (a & Ha & E)]; rewrite E.
  - split; trivial.
  - split; [|intros now' t]; rewrite filter_app; simpl; rewrite Ha; simpl.
    + apply app_nil_r.
    + rewrite andb_false_r. simpl. now rewrite app_nil_r.
Qed.

(** ** The two-argument [log_download] *)

(** The earlier overload never reads or writes [download_attempts]:
    whatever that table holds, the call has the same outcome and leaves the
    other tables the same. *)
Lemma log_download_2_ignores_attempts (now : timestamptz) (t ua : string) (d : db)
    (attempts : list download_attempts_row) :
  fst (log_download_2 now t ua (with_download_attempts d attempts))
  = fst (log_download_2 now t ua d)
  /\ snd (log_download_2 now t ua (with_download_attempts d attempts))
     = with_download_attempts (snd (log_download_2 now t ua d)) attempts.
Proof.
  unfold log_download_2, transaction, log_download_2_body, bind, query,
    raise_exception, insert_download_log, update_current_downloads, ret.
  change (select_link_id now t (with_download_attempts d attempts))
    with (select_link_id now t d).
  destruct (select_link_id now t d) as [i|]; cbn [fst snd]; [|split; reflexivity].
  cbn [share_links with_download_logs with_download_attempts].
  destruct (existsb _ (share_links d)); split; reflexivity.
Qed.

(** X4.  The earlier overload [log_download(link_token, user_agent_text)]
    is not rate limited.  For a usable link whose counter can still grow it
    returns a new log id whatever [download_attempts] holds: it counts the
    download, writes a [download_logs] row without an address, and leaves
    [download_attempts] as it was. *)
Theorem log_download_2_not_rate_limited (now : timestamptz) (t ua : string) (d : db)
    (sl : share_links_row) :
  share_links_keys d ->
  In sl (share_links d) -> sl_token sl = t -> usable now sl = true ->
  sl_current_downloads sl < int4_max ->
  exists log_id d',
    log_download_2 now t ua d = (Returned log_id, d')
    /\ ~ In log_id (map dl_id (download_logs d))
    /\ download_logs d'
       = (download_logs d ++ [mk_download_logs_row log_id (sl_id sl) None (Some ua) now])%list
    /\ link_with_id (sl_id sl) d' = Some (increment_row now sl)
    /\ download_attempts d' = download_attempts d
    /\ files d' = files d.
Proof.
  intros K Hin Ht Hu Hc.
  pose proof (select_link_id_of_usable now d sl K Hin Hu) as Hs. rewrite Ht in Hs.
  destruct (log_download_2_cases now t ua d) as [(e & E) | (i & Hs' & _ & E)].
  - exfalso.
    unfold log_download_2, transaction, log_download_2_body, bind, query in E.
    rewrite Hs in E.
    unfold insert_download_log, update_current_downloads, ret in E.
    cbn [share_links with_download_logs] in E.
    destruct (existsb _ (share_links d)) eqn:X; [|discriminate].
    apply existsb_exists in X as (x & Hx & H).
    apply andb_true_iff in H as [Hi H]. apply N.eqb_eq in Hi. apply Z.ltb_lt in H.
    assert (x = sl)
      by (destruct K as [Ki _]; now apply (NoDup_map_inj sl_id (share_links d))).
    subst x. lia.
  - assert (i = sl_id sl) by congruence. subst i.
    eexists. eexists. split; [exact E|].
    split; [apply gen_random_uuid_fresh|]. split; [reflexivity|].
    split; [|split; reflexivity].
    unfold link_with_id. cbn [share_links]. rewrite find_id_map_bump.
    fold (link_with_id (sl_id sl) d). rewrite (link_with_id_in d sl K Hin).
    simpl. unfold bump. now rewrite N.eqb_refl.
Qed.

(** The address with twenty attempts in the hour, served all the same. *)
Lemma log_download_2_not_rate_limited_witness :
  exists log_id d',
    log_download_2 1000 "tok" "ua" db_ip_window = (Returned log_id, d')
    /\ ~ In log_id (map dl_id (download_logs db_ip_window))
    /\ download_logs d'
       = (download_logs db_ip_window
            ++ [mk_download_logs_row log_id (sl_id link_once) None (Some "ua") 1000])%list
    /\ link_with_id (sl_id link_once) d' = Some (increment_row 1000 link_once)
    /\ download_attempts d' = download_attempts db_ip_window
    /\ files d' = files db_ip_window.
Proof.
  apply (log_download_2_not_rate_limited 1000 "tok" "ua" db_ip_window link_once).
  - keys_by_computation.
  - simpl. tauto.
  - reflexivity.
  - reflexivity.
  - vm_compute. reflexivity.
Defined.

(** ** Lookup and consume together *)

Lemma log_download_usable (now : timestamptz) (t ua : string) (ip : inet) (d : db)
    (sl : share_links_row) :
  share_links_keys d ->
  In sl (share_links d) -> sl_token sl = t -> usable now sl = true ->
  count_recent_attempts now ip d < 20 ->
  count_recent_failures now t d < 10 ->
  sl_current_downloads sl < int4_max ->
  log_download now t ua ip d
  = (Returned (gen_random_uuid (map dl_id (download_logs d))),
     after_writes now t ua ip (sl_id sl) d).
Proof.
  intros K Hin Ht Hu H1 H2 Hc.
  pose proof (select_link_id_of_usable now d sl K Hin Hu) as Hs. rewrite Ht in Hs.
  destruct (log_download_cases now t ua ip d)
    as [ | | H3 H4 H5 | i x H3 H4 H5 H6 H7 H8 | i H3 H4 H5 H6 ];
    try lia; try congruence.
  rewrite Hs in H5. injection H5 as <-.
  assert (x = sl)
    by (destruct K as [Ki _]; now apply (NoDup_map_inj sl_id (share_links d))).
  subst x. lia.
Qed.

Lemma log_download_unusable (now : timestamptz) (t ua : string) (ip : inet) (d : db) :
  (forall sl, In sl (share_links d) -> sl_token sl = t -> usable now sl = false) ->
  exists e, log_download now t ua ip d = (Raised e, d).
Proof.
  intros H. pose proof (select_link_id_none now t d H) as Hs.
  destruct (log_download_cases now t ua ip d); eauto; congruence.
Qed.




(** X6.  The download that uses up a link closes it: after a successful
    [log_download] on a link with one download left, the lookup by its
    token is empty at every instant, and every further [log_download] for
    it raises and changes nothing. *)
Theorem last_download_closes_link (now : timestamptz) (t ua : string) (ip : inet)
    (d : db) (sl : share_links_row) (m : Z) :
  share_links_keys d ->
  In sl (share_links d) -> sl_token sl = t -> usable now sl = true ->
  sl_max_downloads sl = Some m -> sl_current_downloads sl = m - 1 ->
  count_recent_attempts now ip d < 20 ->
  count_recent_failures now t d < 10 ->
  m <= int4_max ->
  exists log_id d',
    log_download now t ua ip d = (Returned log_id, d')
    /\ forall now',
         get_share_link_by_token now' t d' = []
         /\ forall ua' ip', exists e, log_download now' t ua' ip' d' = (Raised e, d').
Proof.
  intros K Hin Ht Hu Hm Hc H1 H2 Hmax.
  rewrite (log_download_usable now t ua ip d sl K Hin Ht Hu H1 H2) by lia.
  eexists. eexists. split; [reflexivity|].
  assert (closed : forall now' x,
             In x (share_links (after_writes now t ua ip (sl_id sl) d)) ->
             sl_token x = t -> usable now' x = false).
  { intros now' x Hx Hxt. unfold after_writes in Hx. simpl in Hx.
    apply in_map_iff in Hx as (y & <- & Hy).
    rewrite bump_token in Hxt.
    assert (y = sl)
      by (destruct K as [_ Kt]; apply (NoDup_map_inj sl_token (share_links d)); congruence).
    subst y. unfold bump. rewrite N.eqb_refl.
    unfold usable, under_limit. simpl. rewrite Hm.
    replace (sl_current_downloads sl + 1 <? m) with false
      by (symmetry; apply Z.ltb_ge; lia).
    apply andb_false_r. }
  intros now'. split.
  - apply get_share_link_by_token_nil. apply closed.
  - intros ua' ip'. apply log_download_unusable. apply closed.
Qed.

(** The one-download link after its one download. *)
Lemma last_download_closes_link_witness :
  exists log_id d',
    log_download 1000 "tok" "ua" "10.0.0.1" db_once = (Returned log_id, d')
    /\ forall now',
         get_share_link_by_token now' "tok" d' = []
         /\ forall ua' ip', exists e, log_download now' "tok" ua' ip' d' = (Raised e, d').
Proof.
  apply (last_download_closes_link 1000 "tok" "ua" "10.0.0.1" db_once link_once 1).
  - keys_by_computation.
  - simpl. tauto.
  - reflexivity.
  - reflexivity.
  - reflexivity.
  - reflexivity.
  - vm_compute. reflexivity.
  - vm_compute. reflexivity.
  - vm_compute. discriminate.
Defined.

(** A link that is usable at an instant was usable at every earlier one. *)
Lemma usable_earlier (t t' : timestamptz) (sl : share_links_row) :
  t <= t' -> usable t' sl = true -> usable t sl = true.
Proof.
  unfold usable, not_expired. intros Ht H.
  apply andb_true_iff in H as [H Hl]. apply andb_true_iff in H as [Ha He].
  rewrite Ha, Hl. simpl. rewrite andb_true_r.
  destruct (sl_expires_at sl) as [e|]; trivial.
  apply Z.ltb_lt in He. apply Z.ltb_lt. lia.
Qed.

(** X7.  No operation revives a link.  A link that is usable at some
    instant after an operation was usable, before the operation, at that
    instant and at every earlier one: once a link has expired, been used up
    or been switched off, nothing in the code brings it back. *)
Theorem no_operation_revives_a_link (now : timestamptz) (op : operation) (d : db)
    (i : uuid) (sl sl' : share_links_row) (t t' : timestamptz) :
  share_links_keys d ->
  link_with_id i d = Some sl ->
  link_with_id i (run_operation now op d) = Some sl' ->
  t <= t' -> usable t' sl' = true ->
  usable t sl = true.
Proof.
  intros K H H' Ht Hu.
  apply link_with_id_some in H as [Hin Hi].
  apply link_with_id_some in H' as [Hin' Hi'].
  destruct K as [Ki Kt].
  destruct (run_operation_links now op d sl' (conj Ki Kt) Hin')
    as [Hold | [(_ & x & Hx & _ & ->) | (Hnew & _)]].
  - assert (sl' = sl) by (apply (NoDup_map_inj sl_id (share_links d)); congruence).
    subst sl'. now apply (usable_earlier t t').
  - simpl in Hi'.
    assert (x = sl) by (apply (NoDup_map_inj sl_id (share_links d)); congruence).
    subst x. apply (usable_earlier t t'); trivial.
    unfold usable, not_expired, under_limit in Hu |- *. simpl in Hu.
    apply andb_true_iff in Hu as [Hu Hl]. rewrite Hu. simpl.
    destruct (sl_max_downloads sl) as [m|]; trivial.
    apply Z.ltb_lt in Hl. apply Z.ltb_lt. lia.
  - exfalso. apply Hnew. rewrite Hi', <- Hi. now apply in_map.
Qed.

(** The two-download link across its first download: [log_download] has
    written the row, the counter is at 1, the link is still usable at time
    2000, and so it was at time 500 before the call. *)
Lemma no_operation_revives_a_link_witness :
  exists sl',
    link_with_id 1%N (run_operation 1000 (Op_log_download "tok" "ua" "10.0.0.1") db_twice)
    = Some sl'
    /\ sl_current_downloads sl' = sl_current_downloads link_twice + 1
    /\ usable 2000 sl' = true
    /\ usable 500 link_twice = true.
Proof.
  eexists. split; [reflexivity|]. split; [reflexivity|]. split; [reflexivity|].
  apply (no_operation_revives_a_link 1000 (Op_log_download "tok" "ua" "10.0.0.1") db_twice
           1%N link_twice
           (increment_row 1000 link_twice) 500 2000).
  - keys_by_computation.
  - reflexivity.
  - reflexivity.
  - discriminate.
  - reflexivity.
Defined.

(** ** Foreign keys *)

Lemma filter_all {A} (p : A -> bool) (l : list A) :
  (forall x, In x l -> p x = true) -> filter p l = l.
Proof.
  induction l as [|x l IH]; simpl; intros H; trivial.
  rewrite (H x) by now left. f_equal. apply IH. intros y Hy. apply H. now right.
Qed.

Lemma references_after_writes (now : timestamptz) (t ua : string) (ip : option inet)
    (d : db) (i new_id : uuid) (attempts : list download_attempts_row) :
  references_ok d -> select_link_id now t d = Some i ->
  references_ok
    (mk_db (files d) (map (bump now i) (share_links d))
           (download_logs d ++ [mk_download_logs_row new_id i ip (Some ua) now])
           attempts).
Proof.
  intros [FK1 FK2] Hs. split; simpl.
  - intros sl' Hin. apply in_map_iff in Hin as (x & <- & Hx).
    destruct (FK1 x Hx) as (f & Hf & Hid). exists f. split; trivial.
    unfold bump. now destruct (N.eqb (sl_id x) i).
  - intros l Hin. apply in_app_or in Hin as [Hin | [<- | []]].
    + destruct (FK2 l Hin) as (sl & Hsl & Hid).
      exists (bump now i sl). split; [now apply in_map|]. now rewrite bump_id.
    + apply select_link_id_some in Hs as (s & Hs & _ & _ & Hi).
      exists (bump now i s). split; [now apply in_map|]. now rewrite bump_id.
Qed.

(** X8.  Every operation keeps the foreign keys: afterwards each share
    link still has its file and each download log still has its share
    link. *)
Theorem operations_keep_references (now : timestamptz) (op : operation) (d : db) :
  references_ok d -> references_ok (run_operation now op d).
Proof.
  intros FK. destruct op as [t | t ua ip | t ua | u f t e c | u f]; simpl; trivial.
  - destruct (log_download_cases now t ua ip d) as [ | | | | i _ _ Hs _ ]; simpl; trivial.
    now apply (references_after_writes now t ua (Some ip) d i).
  - destruct (log_download_2_cases now t ua d) as [(e & E) | (i & Hs & _ & E)];
      rewrite E; simpl; trivial.
    now apply (references_after_writes now t ua None d i).
  - unfold transaction, create_share_link.
    destruct (owns_file_of u d f) eqn:O; simpl; trivial.
    destruct (existsb _ (share_links d)); simpl; trivial.
    destruct FK as [FK1 FK2]. split; simpl.
    + intros sl Hin. apply in_app_or in Hin as [Hin | [<- | []]]; auto.
      simpl. unfold owns_file_of in O. apply existsb_exists in O as (x & Hx & H).
      apply andb_true_iff in H as [H _]. apply N.eqb_eq in H. now exists x.
    + intros l Hin. destruct (FK2 l Hin) as (sl & Hsl & Hid).
      exists sl. split; trivial. apply in_or_app. now left.
  - unfold transaction, delete_file. destruct FK as [FK1 FK2]. split; simpl.
    + intros sl Hin. apply filter_In in Hin as [Hin Hkeep].
      destruct (FK1 sl Hin) as (x & Hx & Hid). exists x. split; trivial.
      apply filter_In. split; trivial.
      apply negb_true_iff. apply negb_true_iff in Hkeep.
      destruct (N.eqb (f_id x) f && file_owned_by u x) eqn:D; trivial.
      rewrite <- not_true_iff_false in Hkeep. exfalso. apply Hkeep.
      apply existsb_exists. exists x. split; trivial.
      rewrite D. simpl. now apply N.eqb_eq.
    + intros l Hin. apply filter_In in Hin as [Hin Hkeep].
      destruct (FK2 l Hin) as (sl & Hsl & Hid). exists sl. split; trivial.
      apply filter_In. split; trivial.
      apply negb_true_iff in Hkeep. apply negb_true_iff.
      match goal with |- ?b = false => destruct b eqn:G end; trivial.
      rewrite <- not_true_iff_false in Hkeep. exfalso. apply Hkeep.
      apply existsb_exists. exists sl. split; trivial.
      rewrite G. simpl. now apply N.eqb_eq.
Qed.

(** A download of the one-download link. *)
Lemma operations_keep_references_witness :
  references_ok (run_operation 1000 (Op_log_download "tok" "ua" "10.0.0.1") db_once).
Proof.
  apply (operations_keep_references 1000 (Op_log_download "tok" "ua" "10.0.0.1") db_once).
  split.
  - intros sl [<- | []]. exists sample_file. simpl. tauto.
  - intros l [].
Defined.

(** ** Deleting a file *)

(** X9.  What deleting a file reaches.  A caller who does not own a file
    with the given id deletes nothing.  Files and share links of other
    files stay, and so does the whole of [download_attempts].  When the
    caller owns the file, its share links go with it, their tokens resolve
    to nothing from then on, and the download logs of those links go
    too. *)
Theorem delete_file_scope (now : timestamptz) (auth_uid : option uuid) (fileId : uuid)
    (d : db) :
  ((forall f, In f (files d) -> f_id f = fileId -> file_owned_by auth_uid f = false) ->
   run_operation now (Op_delete_file auth_uid fileId) d = d)
  /\ (forall f, In f (files d) -> f_id f <> fileId ->
                In f (files (run_operation now (Op_delete_file auth_uid fileId) d)))
  /\ (forall sl, In sl (share_links d) -> sl_file_id sl <> fileId ->
                 In sl (share_links (run_operation now (Op_delete_file auth_uid fileId) d)))
  /\ download_attempts (run_operation now (Op_delete_file auth_uid fileId) d)
     = download_attempts d
  /\ ((exists f, In f (files d) /\ f_id f = fileId /\ file_owned_by auth_uid f = true) ->
      share_links_keys d ->
      (forall sl, In sl (share_links (run_operation now (Op_delete_file auth_uid fileId) d)) ->
                  sl_file_id sl <> fileId)
      /\ (forall sl now',
             In sl (share_links d) -> sl_file_id sl = fileId ->
             get_share_link_by_token now' (sl_token sl)
               (run_operation now (Op_delete_file auth_uid fileId) d) = [])
      /\ (forall l sl,
             In l (download_logs (run_operation now (Op_delete_file auth_uid fileId) d)) ->
             In sl (share_links d) -> sl_file_id sl = fileId ->
             dl_share_link_id l <> sl_id sl)).
Proof.
  cbn [run_operation]. unfold transaction, delete_file. cbn [snd].
  set (deleted := fun f => N.eqb (f_id f) fileId && file_owned_by auth_uid f).
  set (link_goes := fun sl =>
         existsb (fun f => deleted f && N.eqb (f_id f) (sl_file_id sl)) (files d)).
  set (log_goes := fun l =>
         existsb (fun sl => link_goes sl && N.eqb (sl_id sl) (dl_share_link_id l))
                 (share_links d)).
  assert (other_file : forall f, f_id f <> fileId -> deleted f = false).
  { intros f H. unfold deleted. apply N.eqb_neq in H. now rewrite H. }
  assert (other_link : forall sl, sl_file_id sl <> fileId -> link_goes sl = false).
  { intros sl H. unfold link_goes.
    destruct (existsb _ (files d)) eqn:E; trivial.
    apply existsb_exists in E as (f & _ & Hf). apply andb_true_iff in Hf as [Hd Hi].
    apply N.eqb_eq in Hi. unfold deleted in Hd. apply andb_true_iff in Hd as [Hd _].
    apply N.eqb_eq in Hd. congruence. }
  split; [|split; [|split; [|split]]].
  - intros H.
    assert (D : forall f, In f (files d) -> deleted f = false).
    { intros f Hin. unfold deleted. destruct (N.eqb (f_id f) fileId) eqn:E; trivial.
      apply N.eqb_eq in E. simpl. auto. }
    assert (L : forall sl, link_goes sl = false).
    { intros sl. unfold link_goes. destruct (existsb _ (files d)) eqn:E; trivial.
      apply existsb_exists in E as (f & Hin & Hf).
      rewrite (D f Hin) in Hf. discriminate. }
    assert (G : forall l, log_goes l = false).
    { intros l. unfold log_goes. destruct (existsb _ (share_links d)) eqn:E; trivial.
      apply existsb_exists in E as (sl & _ & Hs). rewrite L in Hs. discriminate. }
    rewrite !filter_all.
    + now destruct d.
    + intros l _. apply negb_true_iff. exact (G l).
    + intros sl _. apply negb_true_iff. exact (L sl).
    + intros f Hin. apply negb_true_iff. exact (D f Hin).
  - intros f Hin H. cbn [files]. apply filter_In. split; trivial.
    apply negb_true_iff. now apply other_file.
  - intros sl Hin H. cbn [share_links]. apply filter_In. split; trivial.
    apply negb_true_iff. now apply other_link.
  - reflexivity.
  - intros (f & Hf & Hid & Hown) [Ki Kt]. cbn [share_links download_logs].
    assert (goes : forall sl, sl_file_id sl = fileId -> link_goes sl = true).
    { intros sl H. unfold link_goes. apply existsb_exists. exists f. split; trivial.
      unfold deleted. rewrite Hown, andb_true_r.
      apply andb_true_iff. split; apply N.eqb_eq; congruence. }
    assert (gone : forall sl, In sl (filter (fun sl => negb (link_goes sl)) (share_links d)) ->
                              sl_file_id sl <> fileId).
    { intros sl Hin E. apply filter_In in Hin as [_ Hk].
      change (negb (link_goes sl) = true) in Hk.
      rewrite (goes sl E) in Hk. discriminate. }
    split; [exact gone|]. split.
    + intros sl now' Hin E. apply get_share_link_by_token_nil.
      cbn [share_links]. intros x Hx Hxt. exfalso. apply (gone x Hx).
      apply filter_In in Hx as [Hx _].
      assert (x = sl) by (apply (NoDup_map_inj sl_token (share_links d)); congruence).
      congruence.
    + intros l sl Hl Hin E Hl_id. apply filter_In in Hl as [_ Hk].
      change (negb (log_goes l) = true) in Hk.
      apply negb_true_iff in Hk. rewrite <- not_true_iff_false in Hk. apply Hk.
      unfold log_goes. apply existsb_exists. exists sl. split; trivial.
      rewrite (goes sl E). simpl. apply N.eqb_eq. congruence.
Qed.

(** ** Creating a link and looking it up *)

Lemma filter_key_unique {A} (key : A -> uuid) (l : list A) (a : A) :
  NoDup (map key l) -> In a l ->
  filter (fun x => N.eqb (key x) (key a)) l = [a].
Proof.
  induction l as [|x l IH]; simpl; intros ND Hin; [contradiction|].
  inversion ND as [|? ? Hx ND']; subst.
  destruct Hin as [-> | Hin].
  - rewrite N.eqb_refl. f_equal. apply filter_nil.
    intros y Hy. apply N.eqb_neq. intros E. apply Hx. rewrite <- E. now apply in_map.
  - replace (N.eqb (key x) (key a)) with false; [now apply IH|].
    symmetry. apply N.eqb_neq. intros E. apply Hx. rewrite E. now apply in_map.
Qed.

(** X10.  A link made by the upload form can be looked up by its token.
    When the caller owns the file and the token is new, the insert adds one
    active link with counter 0 and the chosen ceiling; its token resolves
    to that link and its file at every instant before the chosen number of
    hours has passed, and to nothing from that instant on.  With "never"
    it resolves at every instant. *)
Theorem created_link_resolves (now date_now : Z) (auth_uid : option uuid)
    (file_id : uuid) (shareToken : string) (c : expirationTime_choice)
    (choice : max_downloads_choice) (d : db) (f : files_row) :
  files_keys d ->
  In f (files d) -> f_id f = file_id -> file_owned_by auth_uid f = true ->
  (forall sl, In sl (share_links d) -> sl_token sl <> shareToken) ->
  exists row,
    run_operation now
      (Op_create_share_link auth_uid file_id shareToken (expiresAt_of date_now c) choice) d
    = with_share_links d (share_links d ++ [row])
    /\ sl_token row = shareToken /\ sl_file_id row = file_id
    /\ sl_current_downloads row = 0 /\ sl_is_active row = true
    /\ sl_max_downloads row = maxDownloads_of choice
    /\ forall t,
         match hours_of c with
         | Some hours =>
             (t < 1000 * (date_now + hours * 60 * 60 * 1000) ->
              get_share_link_by_token t shareToken
                (with_share_links d (share_links d ++ [row])) = [join_row row f])
             /\ (1000 * (date_now + hours * 60 * 60 * 1000) <= t ->
                 get_share_link_by_token t shareToken
                   (with_share_links d (share_links d ++ [row])) = [])
         | None =>
             get_share_link_by_token t shareToken
               (with_share_links d (share_links d ++ [row])) = [join_row row f]
         end.
Proof.
  intros FK Hf Hid Hown Hnew.
  cbn [run_operation]. unfold transaction, create_share_link.
  assert (O : owns_file_of auth_uid d file_id = true).
  { unfold owns_file_of. apply existsb_exists. exists f. split; trivial.
    rewrite Hown, andb_true_r. now apply N.eqb_eq. }
  assert (X : existsb (fun sl => String.eqb (sl_token sl) shareToken) (share_links d) = false).
  { destruct (existsb _ (share_links d)) eqn:E; trivial.
    apply existsb_exists in E as (sl & Hin & H). apply String.eqb_eq in H.
    now destruct (Hnew sl Hin). }
  rewrite O, X. cbn [negb snd].
  eexists. split; [reflexivity|].
  do 5 (split; [reflexivity|]).
  intros t.
  assert (old : filter (fun sl => String.eqb (sl_token sl) shareToken && usable t sl)
                       (share_links d) = []).
  { apply filter_nil. intros sl Hin.
    replace (String.eqb (sl_token sl) shareToken) with false; trivial.
    symmetry. apply String.eqb_neq. auto. }
  assert (file : filter (fun f0 => N.eqb (f_id f0) file_id) (files d) = [f]).
  { rewrite <- Hid. now apply (filter_key_unique f_id). }
  unfold get_share_link_by_token, expiresAt_of.
  cbn [share_links with_share_links files].
  rewrite filter_app, old. cbn [app filter sl_token].
  rewrite String.eqb_refl. unfold usable, not_expired, under_limit.
  cbn [sl_is_active sl_expires_at sl_max_downloads sl_current_downloads andb Bool.eqb].
  assert (lim : match maxDownloads_of choice with
                | Some m => 0 <? m
                | None => true
                end = true) by (destruct choice; reflexivity).
  rewrite lim, andb_true_r.
  destruct (hours_of c) as [hours|].
  - split; intros Ht.
    + replace (t <? 1000 * (date_now + hours * 60 * 60 * 1000)) with true
        by (symmetry; apply Z.ltb_lt; lia).
      cbn [flat_map sl_file_id]. rewrite file. reflexivity.
    + replace (t <? 1000 * (date_now + hours * 60 * 60 * 1000)) with false
        by (symmetry; apply Z.ltb_ge; lia).
      reflexivity.
  - cbn [flat_map sl_file_id]. rewrite file. reflexivity.
Qed.

(** A link for the sample file, good for a day, with a token of its own. *)
Lemma created_link_resolves_witness :
  exists row,
    run_operation 0
      (Op_create_share_link (Some 7%N) 1%N "fresh" (expiresAt_of 0 Expire24) Downloads5)
      db_once
    = with_share_links db_once (share_links db_once ++ [row])
    /\ sl_token row = "fresh" /\ sl_file_id row = 1%N
    /\ sl_current_downloads row = 0 /\ sl_is_active row = true
    /\ sl_max_downloads row = maxDownloads_of Downloads5
    /\ forall t,
         match hours_of Expire24 with
         | Some hours =>
             (t < 1000 * (0 + hours * 60 * 60 * 1000) ->
              get_share_link_by_token t "fresh"
                (with_share_links db_once (share_links db_once ++ [row]))
              = [join_row row sample_file])
             /\ (1000 * (0 + hours * 60 * 60 * 1000) <= t ->
                 get_share_link_by_token t "fresh"
                   (with_share_links db_once (share_links db_once ++ [row])) = [])
         | None =>
             get_share_link_by_token t "fresh"
               (with_share_links db_once (share_links db_once ++ [row]))
             = [join_row row sample_file]
         end.
Proof.
  apply (created_link_resolves 0 0 (Some 7%N) 1%N "fresh" Expire24 Downloads5
           db_once sample_file).
  - unfold files_keys. simpl. repeat constructor. simpl. tauto.
  - simpl. tauto.
  - reflexivity.
  - reflexivity.
  - intros sl [<- | []]. discriminate.
Defined.

(** ** Reading an object without a token *)

Lemma filter_token_unique (now : timestamptz) (l : list share_links_row)
    (sl : share_links_row) :
  NoDup (map sl_token l) -> In sl l -> usable now sl = true ->
  filter (fun x => String.eqb (sl_token x) (sl_token sl) && usable now x) l = [sl].
Proof.
  induction l as [|x l IH]; simpl; intros ND Hin Hu; [contradiction|].
  inversion ND as [|? ? Hx ND']; subst.
  destruct Hin as [-> | Hin].
  - rewrite String.eqb_refl, Hu. simpl. f_equal. apply filter_nil.
    intros y Hy. replace (String.eqb (sl_token y) (sl_token sl)) with false; trivial.
    symmetry. apply String.eqb_neq. intros E. apply Hx. rewrite <- E. now apply in_map.
  - replace (String.eqb (sl_token x) (sl_token sl)) with false; [now apply IH|].
    symmetry. apply String.eqb_neq. intros E. apply Hx. rewrite E. now apply in_map.
Qed.

(** The lookup by the token of a usable link gives that link and its file. *)
Lemma get_share_link_by_token_usable (now : timestamptz) (d : db)
    (sl : share_links_row) (f : files_row) :
  share_links_keys d -> files_keys d ->
  In sl (share_links d) -> usable now sl = true ->
  In f (files d) -> f_id f = sl_file_id sl ->
  get_share_link_by_token now (sl_token sl) d = [join_row sl f].
Proof.
  intros [_ Kt] FK Hin Hu Hf Hid. unfold get_share_link_by_token.
  rewrite (filter_token_unique now (share_links d) sl Kt Hin Hu).
  cbn [flat_map]. rewrite <- Hid, (filter_key_unique f_id (files d) f FK Hf).
  reflexivity.
Qed.

(** A caller who is not signed in sees no row of [files], so a join with
    [files] is empty for that caller whatever the other table shows. *)
Lemma no_file_for_anon (now : timestamptz) (d : db) (name : string)
    (links : list share_links_row) :
  existsb (fun sl =>
             existsb (fun f => N.eqb (f_id f) (sl_file_id sl)
                               && String.eqb (f_storage_path f) name)
                     (select_files None d)
             && usable now sl)
          links = false.
Proof.
  unfold select_files. rewrite filter_nil by reflexivity.
  induction links as [|sl links IH]; simpl; trivial.
Qed.

(** X11.  The storage policy "Public can download files via valid share
    links" opens nothing to the public.  Its sub-select reads [files] and
    [share_links] under their own policies, which show a caller the own
    files and their links only: a caller who is not signed in can read no
    object through it, and a signed-in caller exactly the objects of the
    own files that have a usable link, in the bucket [secure-files]. *)
Theorem public_download_only_for_owner (auth_uid : option uuid) (now : timestamptz)
    (d : db) (name : string) :
  (public_can_download auth_uid now d "secure-files" name = true
   <-> exists u f sl,
         auth_uid = Some u
         /\ In f (files d) /\ f_user_id f = u /\ f_storage_path f = name
         /\ In sl (share_links d) /\ sl_file_id sl = f_id f /\ usable now sl = true)
  /\ (forall bucket_id name', public_can_download None now d bucket_id name' = false)
  /\ (forall bucket_id, bucket_id <> "secure-files" ->
                        public_can_download auth_uid now d bucket_id name = false).
Proof.
  split; [|split].
  - unfold public_can_download. rewrite String.eqb_refl. cbn [andb]. split.
    + intros H. apply existsb_exists in H as (sl & Hin & H).
      apply andb_true_iff in H as [H Hu].
      apply existsb_exists in H as (f & Hf & H).
      apply andb_true_iff in H as [Hid Hp].
      apply N.eqb_eq in Hid. apply String.eqb_eq in Hp.
      apply filter_In in Hf as [Hf Ho]. apply filter_In in Hin as [Hin _].
      destruct auth_uid as [u|]; [|discriminate]. simpl in Ho. apply N.eqb_eq in Ho.
      exists u, f, sl. repeat split; auto.
    + intros (u & f & sl & -> & Hf & Ho & Hp & Hin & Hid & Hu).
      assert (Own : file_owned_by (Some u) f = true) by (simpl; now apply N.eqb_eq).
      apply existsb_exists. exists sl. split.
      * apply filter_In. split; trivial. unfold owns_file_of.
        apply existsb_exists. exists f. split; trivial.
        rewrite Own, andb_true_r. apply N.eqb_eq. now symmetry.
      * rewrite Hu, andb_true_r. apply existsb_exists. exists f. split.
        -- apply filter_In. now split.
        -- apply andb_true_iff. split; [apply N.eqb_eq; now symmetry | now apply String.eqb_eq].
  - intros bucket_id name'. unfold public_can_download.
    rewrite no_file_for_anon. apply andb_false_r.
  - intros bucket_id H. unfold public_can_download.
    apply String.eqb_neq in H. now rewrite H.
Qed.

(** ** The dashboard's list *)

Lemma insert_by_created_at_perm (f : files_row) (l : list files_row) :
  Permutation (insert_by_created_at f l) (f :: l).
Proof.
  induction l as [|g l IH]; simpl; [reflexivity|].
  destruct (f_created_at g <? f_created_at f); [reflexivity|].
  rewrite IH. apply perm_swap.
Qed.

Lemma order_by_created_at_desc_perm (l : list files_row) :
  Permutation (order_by_created_at_desc l) l.
Proof.
  induction l as [|f l IH]; simpl; [reflexivity|].
  rewrite insert_by_created_at_perm. now constructor.
Qed.

Lemma insert_by_created_at_sorted (f : files_row) (l : list files_row) :
  StronglySorted (fun a b => f_created_at b <= f_created_at a) l ->
  StronglySorted (fun a b => f_created_at b <= f_created_at a)
                 (insert_by_created_at f l).
Proof.
  induction l as [|g l IH]; simpl; intros S.
  - repeat constructor.
  - apply StronglySorted_inv in S as [S Hg].
    destruct (f_created_at g <? f_created_at f) eqn:E.
    + apply Z.ltb_lt in E. constructor.
      * now constructor.
      * constructor; [lia|].
        rewrite Forall_forall in Hg |- *. intros x Hx. specialize (Hg x Hx). lia.
    + apply Z.ltb_ge in E. constructor; [now apply IH|].
      rewrite insert_by_created_at_perm. now constructor.
Qed.

Lemma order_by_created_at_desc_sorted (l : list files_row) :
  StronglySorted (fun a b => f_created_at b <= f_created_at a)
                 (order_by_created_at_desc l).
Proof.
  induction l as [|f l IH]; simpl; [constructor|].
  now apply insert_by_created_at_sorted.
Qed.

(** X12.  The dashboard lists the caller's own files and nothing else:
    each of them once, newest first, each with exactly the share links of
    that file.  For a caller who is not signed in the list is empty. *)
Theorem fetchFiles_lists_own_files (auth_uid : option uuid) (d : db) :
  Permutation (map fst (fetchFiles auth_uid d)) (select_files auth_uid d)
  /\ StronglySorted (fun a b => f_created_at b <= f_created_at a)
                    (map fst (fetchFiles auth_uid d))
  /\ (forall f links,
         In (f, links) (fetchFiles auth_uid d) ->
         In f (files d) /\ file_owned_by auth_uid f = true
         /\ forall sl, In sl links <-> In sl (share_links d) /\ sl_file_id sl = f_id f)
  /\ fetchFiles None d = [].
Proof.
  assert (fsts : map fst (fetchFiles auth_uid d)
                 = order_by_created_at_desc (select_files auth_uid d)).
  { unfold fetchFiles. rewrite map_map. simpl. apply map_id. }
  split; [|split; [|split]].
  - rewrite fsts. apply order_by_created_at_desc_perm.
  - rewrite fsts. apply order_by_created_at_desc_sorted.
  - intros f links Hin. unfold fetchFiles in Hin.
    apply in_map_iff in Hin as (g & E & Hg). injection E as -> <-.
    apply (Permutation_in _ (order_by_created_at_desc_perm _)) in Hg.
    apply filter_In in Hg as [Hf Hown]. split; [exact Hf|]. split; [exact Hown|].
    intros sl. split.
    + intros H. unfold share_links_of, select_share_links in H.
      apply filter_In in H as [H Hid]. apply filter_In in H as [H _].
      split; [exact H | now apply N.eqb_eq].
    + intros [Hsl Hid]. unfold share_links_of, select_share_links.
      apply filter_In. split; [|now apply N.eqb_eq].
      apply filter_In. split; trivial.
      unfold owns_file_of. apply existsb_exists. exists f. split; trivial.
      rewrite Hown, andb_true_r. apply N.eqb_eq. congruence.
  - unfold fetchFiles, select_files. now rewrite filter_nil.
Qed.

(** ** What the handler answers and what it writes *)

Section HandlerOutcomes.

Variable inet_in : string -> option inet.
Variable createSignedUrl : string -> Z -> option string.

(** X13.  The handler answers with one of five status codes, and it leaves
    the database as it found it unless it answers with the download or
    with "Failed to generate download URL". *)
Theorem handler_outcomes (clk : clock) (req : request) (d : db) :
  In (status (fst (handler inet_in createSignedUrl clk req d))) [200; 400; 403; 404; 500]
  /\ (snd (handler inet_in createSignedUrl clk req d) = d
      \/ (exists url filename,
             fst (handler inet_in createSignedUrl clk req d)
             = json_response 200 (JsonDownload url filename))
      \/ fst (handler inet_in createSignedUrl clk req d)
         = json_response 500 (JsonError "Failed to generate download URL")).
Proof.
  unfold handler.
  destruct (String.eqb (req_method req) "OPTIONS"); [simpl; tauto|].
  destruct (req_json req) as [[token|]|]; try (simpl; tauto).
  destruct (negb (truthy token)); [simpl; tauto|].
  destruct (get_share_link_by_token (t_lookup clk) token d) as [|shareLink rest];
    [simpl; tauto|].
  destruct (no_longer_valid (t_check clk) shareLink); [simpl; tauto|].
  destruct (rpc_log_download inet_in (t_log clk) token (userAgent_of req)
              (ipAddress_of req) d) as [[log_id|message] d'] eqn:R.
  - destruct (createSignedUrl (sli_storage_path shareLink) 3600) as [url|]; simpl.
    + split; [tauto|]. right. left. eauto.
    + split; [tauto|]. right. now right.
  - apply rpc_log_download_messages in R as [-> _]. simpl. tauto.
Qed.

(** X14.  A download answer means a counted download.  When the handler
    answers 200 with a signed URL, the lookup had found the link of the
    token, [log_download] has returned for it and written its
    [download_logs] row with the requester's address and user agent, and
    the URL is the one the store signed, for one hour, for the storage
    path of that link's file; the file name is that file's original
    name. *)
Theorem download_is_counted (clk : clock) (req : request) (d : db)
    (url filename : string) :
  share_links_keys d ->
  fst (handler inet_in createSignedUrl clk req d)
  = json_response 200 (JsonDownload url filename) ->
  exists token shareLink rest ip_addr log_id,
    req_json req = Some (Some token)
    /\ get_share_link_by_token (t_lookup clk) token d = shareLink :: rest
    /\ inet_in (ipAddress_of req) = Some ip_addr
    /\ log_download (t_log clk) token (userAgent_of req) ip_addr d
       = (Returned log_id, snd (handler inet_in createSignedUrl clk req d))
    /\ download_logs (snd (handler inet_in createSignedUrl clk req d))
       = (download_logs d
            ++ [mk_download_logs_row log_id (sli_id shareLink) (Some ip_addr)
                  (Some (userAgent_of req)) (t_log clk)])%list
    /\ createSignedUrl (sli_storage_path shareLink) 3600 = Some url
    /\ filename = sli_original_filename shareLink.
Proof.
  intros K. unfold handler.
  destruct (String.eqb (req_method req) "OPTIONS"); [discriminate|].
  destruct (req_json req) as [[token|]|] eqn:J; try discriminate.
  destruct (negb (truthy token)); [discriminate|].
  destruct (get_share_link_by_token (t_lookup clk) token d) as [|shareLink rest] eqn:L;
    [discriminate|].
  destruct (no_longer_valid (t_check clk) shareLink); [discriminate|].
  unfold rpc_log_download.
  destruct (inet_in (ipAddress_of req)) as [ip_addr|] eqn:I; [|discriminate].
  destruct (log_download (t_log clk) token (userAgent_of req) ip_addr d)
    as [[log_id|message] d'] eqn:R; [|discriminate].
  destruct (createSignedUrl (sli_storage_path shareLink) 3600) as [u|] eqn:S;
    [|discriminate].
  cbn [fst snd]. intros E. injection E as E1 E2. subst u filename.
  exists token, shareLink, rest, ip_addr, log_id.
  split; [reflexivity|]. split; [exact L|]. split; [reflexivity|].
  split; [exact R|]. split; [|split; [exact S | reflexivity]].
  apply log_download_returned in R as (i & Hs & _ & _ & _ & -> & ->).
  unfold after_writes. cbn [download_logs]. do 3 f_equal.
  assert (Hrow : In shareLink (get_share_link_by_token (t_lookup clk) token d))
    by (rewrite L; now left).
  apply get_share_link_by_token_in in Hrow as (sl & f & Hin & _ & _ & Ht & _ & ->).
  apply select_link_id_some in Hs as (s & Hs & Hst & _ & <-).
  destruct K as [_ Kt]. simpl. f_equal.
  apply (NoDup_map_inj sl_token (share_links d)); congruence.
Qed.

(** X15.  Counted but not delivered.  When [log_download] has returned and
    the store then fails to sign the URL, the handler answers 500 and the
    download stays counted: the link's counter is one higher and the log
    row is written. *)
Theorem counted_but_not_signed (clk : clock) (req : request) (d : db)
    (token : string) (ip_addr : inet) (sl : share_links_row) (f : files_row) :
  share_links_keys d -> files_keys d ->
  req_method req <> "OPTIONS" -> req_json req = Some (Some token) ->
  truthy token = true ->
  In sl (share_links d) -> sl_token sl = token ->
  In f (files d) -> f_id f = sl_file_id sl ->
  usable (t_lookup clk) sl = true ->
  no_longer_valid (t_check clk) (join_row sl f) = false ->
  usable (t_log clk) sl = true ->
  inet_in (ipAddress_of req) = Some ip_addr ->
  count_recent_attempts (t_log clk) ip_addr d < 20 ->
  count_recent_failures (t_log clk) token d < 10 ->
  sl_current_downloads sl < int4_max ->
  createSignedUrl (f_storage_path f) 3600 = None ->
  fst (handler inet_in createSignedUrl clk req d)
  = json_response 500 (JsonError "Failed to generate download URL")
  /\ link_with_id (sl_id sl) (snd (handler inet_in createSignedUrl clk req d))
     = Some (increment_row (t_log clk) sl)
  /\ List.length (download_logs (snd (handler inet_in createSignedUrl clk req d)))
     = S (List.length (download_logs d)).
Proof.
  intros K FK Hm Hj Htr Hin Ht Hf Hid Hu Hv Hu' Hip H1 H2 Hc Hsign.
  subst token.
  pose proof (get_share_link_by_token_usable (t_lookup clk) d sl f K FK Hin Hu Hf Hid) as L.
  rewrite (handler_reaches_log_download inet_in createSignedUrl clk req d
             (sl_token sl) (join_row sl f) [] Hm Hj Htr L Hv).
  unfold rpc_log_download. rewrite Hip.
  rewrite (log_download_usable (t_log clk) (sl_token sl) (userAgent_of req) ip_addr d sl
             K Hin eq_refl Hu' H1 H2 Hc).
  cbn [sli_storage_path join_row]. rewrite Hsign. cbn [fst snd].
  split; [reflexivity|]. split.
  - now apply after_writes_link.
  - unfold after_writes. cbn [download_logs]. rewrite length_app. simpl. lia.
Qed.

End HandlerOutcomes.

(** A store that signs nothing. *)
Lemma counted_but_not_signed_witness :
  fst (handler sample_inet_in (fun _ _ => None) sample_clock
         (post_token "tok" "10.0.0.1") db_once)
  = json_response 500 (JsonError "Failed to generate download URL")
  /\ link_with_id (sl_id link_once)
       (snd (handler sample_inet_in (fun _ _ => None) sample_clock
               (post_token "tok" "10.0.0.1") db_once))
     = Some (increment_row (t_log sample_clock) link_once)
  /\ List.length
       (download_logs
          (snd (handler sample_inet_in (fun _ _ => None) sample_clock
                  (post_token "tok" "10.0.0.1") db_once)))
     = S (List.length (download_logs db_once)).
Proof.
  apply (counted_but_not_signed sample_inet_in (fun _ _ => None) sample_clock
           (post_token "tok" "10.0.0.1") db_once "tok" "10.0.0.1" link_once sample_file).
  - keys_by_computation.
  - unfold files_keys. simpl. repeat constructor. simpl. tauto.
  - discriminate.
  - reflexivity.
  - reflexivity.
  - simpl. tauto.
  - reflexivity.
  - simpl. tauto.
  - reflexivity.
  - reflexivity.
  - reflexivity.
  - reflexivity.
  - reflexivity.
  - vm_compute. reflexivity.
  - vm_compute. reflexivity.
  - vm_compute. reflexivity.
  - reflexivity.
Defined.

(** The download of the sample file. *)
Lemma download_is_counted_witness :
  exists token shareLink rest ip_addr log_id,
    req_json (post_token "tok" "10.0.0.1") = Some (Some token)
    /\ get_share_link_by_token (t_lookup sample_clock) token db_once = shareLink :: rest
    /\ sample_inet_in (ipAddress_of (post_token "tok" "10.0.0.1")) = Some ip_addr
    /\ log_download (t_log sample_clock) token (userAgent_of (post_token "tok" "10.0.0.1"))
         ip_addr db_once
       = (Returned log_id,
          snd (handler sample_inet_in sample_createSignedUrl sample_clock
                 (post_token "tok" "10.0.0.1") db_once))
    /\ download_logs
         (snd (handler sample_inet_in sample_createSignedUrl sample_clock
                 (post_token "tok" "10.0.0.1") db_once))
       = (download_logs db_once
            ++ [mk_download_logs_row log_id (sli_id shareLink) (Some ip_addr)
                  (Some (userAgent_of (post_token "tok" "10.0.0.1")))
                  (t_log sample_clock)])%list
    /\ sample_createSignedUrl (sli_storage_path shareLink) 3600
       = Some "https://storage/7/a.bin"
    /\ "report.pdf" = sli_original_filename shareLink.
Proof.
  apply (download_is_counted sample_inet_in sample_createSignedUrl sample_clock
           (post_token "tok" "10.0.0.1") db_once "https://storage/7/a.bin" "report.pdf").
  - keys_by_computation.
  - reflexivity.
Defined.

(** ** The address the handler hands to [log_download] *)

Lemma white_space_not_comma (c : ascii) : is_white_space c = true -> not_comma c = true.
Proof.
  unfold not_comma. intros H.
  destruct (Ascii.eqb_spec c ","%char) as [E | _]; [|reflexivity].
  subst c. discriminate H.
Qed.

Lemma string_append_assoc (a b c : string) : (a ++ b) ++ c = a ++ (b ++ c).
Proof. induction a as [|x a IH]; simpl; trivial. now rewrite IH. Qed.

Lemma string_append_nil_r (a : string) : a ++ EmptyString = a.
Proof. induction a as [|x a IH]; simpl; trivial. now rewrite IH. Qed.

Lemma string_forall_app (p : ascii -> bool) (a b : string) :
  string_forall p (a ++ b) = string_forall p a && string_forall p b.
Proof.
  induction a as [|c a IH]; simpl; trivial. now rewrite IH, andb_assoc.
Qed.

Lemma string_forall_weaken (p q : ascii -> bool) (s : string) :
  (forall c, p c = true -> q c = true) ->
  string_forall p s = true -> string_forall q s = true.
Proof.
  intros H. induction s as [|c s IH]; simpl; trivial.
  intros E. apply andb_true_iff in E as [E1 E2]. now rewrite (H c E1), IH.
Qed.

Lemma split_comma_0_prefix (a tail : string) :
  string_forall not_comma a = true ->
  tail = EmptyString \/ (exists rest, tail = String ","%char rest) ->
  split_comma_0 (a ++ tail) = a.
Proof.
  induction a as [|c a IH]; simpl; intros Ha Ht.
  - destruct Ht as [-> | (rest & ->)]; reflexivity.
  - apply andb_true_iff in Ha as [Hc Ha]. unfold not_comma in Hc.
    apply negb_true_iff in Hc. rewrite Hc. f_equal. now apply IH.
Qed.

Lemma trim_start_white (ws s : string) :
  string_forall is_white_space ws = true -> trim_start (ws ++ s) = trim_start s.
Proof.
  induction ws as [|c ws IH]; simpl; trivial.
  intros H. apply andb_true_iff in H as [Hc H]. rewrite Hc. now apply IH.
Qed.

Lemma trim_start_clean (s : string) : starts_clean s = true -> trim_start s = s.
Proof.
  destruct s as [|c s]; simpl; [discriminate|].
  intros H. apply negb_true_iff in H. now rewrite H.
Qed.

Lemma trim_end_white (ws : string) :
  string_forall is_white_space ws = true -> trim_end ws = EmptyString.
Proof.
  induction ws as [|c ws IH]; simpl; trivial.
  intros H. apply andb_true_iff in H as [Hc H]. now rewrite (IH H), Hc.
Qed.

Lemma trim_end_cons (c : ascii) (rest : string) :
  trim_end (String c rest)
  = match trim_end rest with
    | EmptyString => if is_white_space c then EmptyString else String c EmptyString
    | r => String c r
    end.
Proof. reflexivity. Qed.

Lemma trim_end_clean (s ws : string) :
  ends_clean s = true -> string_forall is_white_space ws = true ->
  trim_end (s ++ ws) = s.
Proof.
  intros Hs Hw. induction s as [|c s IH]; [discriminate|].
  destruct s as [|c' s].
  - simpl in Hs |- *. rewrite (trim_end_white ws Hw).
    apply negb_true_iff in Hs. now rewrite Hs.
  - change (String c (String c' s) ++ ws) with (String c (String c' s ++ ws)).
    rewrite trim_end_cons, IH by exact Hs. reflexivity.
Qed.

(** X16.  The address the handler takes from [x-forwarded-for] is the
    first entry of the header with the white space around it removed: for
    a header that reads white space, an entry without comma or outer white
    space, white space, and then nothing or a comma and more, the address
    is that entry.  White space is what [trim] strips of a header value:
    the space, the codes 9 to 13 and the no-break space. *)
Theorem first_forwarded_address (req : request) (ws1 core ws2 tail : string) :
  x_forwarded_for req = Some (ws1 ++ core ++ ws2 ++ tail) ->
  string_forall is_white_space ws1 = true ->
  string_forall is_white_space ws2 = true ->
  string_forall not_comma core = true ->
  starts_clean core = true -> ends_clean core = true ->
  tail = EmptyString \/ (exists rest, tail = String ","%char rest) ->
  ipAddress_of req = core.
Proof.
  intros Hh H1 H2 Hc Hs He Ht. unfold ipAddress_of. rewrite Hh.
  assert (T : truthy (ws1 ++ core ++ ws2 ++ tail) = true).
  { unfold truthy. apply negb_true_iff, String.eqb_neq.
    destruct ws1; [|discriminate]. destruct core; discriminate. }
  rewrite T.
  replace (ws1 ++ core ++ ws2 ++ tail) with ((ws1 ++ core ++ ws2) ++ tail)
    by (now rewrite !string_append_assoc).
  rewrite split_comma_0_prefix; trivial.
  - unfold trim. rewrite trim_start_white by exact H1.
    rewrite trim_start_clean.
    + now apply trim_end_clean.
    + destruct core; [discriminate | exact Hs].
  - rewrite !string_forall_app, Hc.
    rewrite (string_forall_weaken _ _ ws1 white_space_not_comma H1).
    now rewrite (string_forall_weaken _ _ ws2 white_space_not_comma H2).
Qed.

(** A header with a no-break space and a blank before [1.2.3.4], and a tab
    after it. *)
Lemma first_forwarded_address_witness :
  ipAddress_of (post_token "tok" padded_forwarded_for) = "1.2.3.4".
Proof.
  apply (first_forwarded_address (post_token "tok" padded_forwarded_for)
           (String (ascii_of_nat 160) " ") "1.2.3.4" (String (ascii_of_nat 9) EmptyString)
           ", 5.6.7.8").
  - reflexivity.
  - reflexivity.
  - reflexivity.
  - reflexivity.
  - reflexivity.
  - reflexivity.
  - right. now exists " 5.6.7.8".
Defined.

(** ** What the upload form refuses *)

Lemma nth_error_skipn {A} (l : list A) (i : nat) (b : A) :
  nth_error l i = Some b <-> exists t, skipn i l = b :: t /\ skipn (S i) l = t.
Proof.
  revert l. induction i as [|i IH]; intros [|x l]; simpl.
  - split; [discriminate | intros (t & H & _); discriminate].
  - split.
    + intros E. injection E as ->. now exists l.
    + intros (t & E & _). now injection E as -> _.
  - split; [discriminate | intros (t & H & _); discriminate].
  - apply IH.
Qed.

(** The inner loop finds the signature exactly when the bytes from index
    [i] on begin with it. *)
Lemma signature_matches_prefix (bytes : list Z) (sig : list Z) :
  forall i, signature_matches bytes i sig = true
            <-> exists rest, skipn i bytes = (sig ++ rest)%list.
Proof.
  induction sig as [|s sig IH]; intros i; simpl.
  - split; [intros _; now exists (skipn i bytes) | trivial].
  - destruct (nth_error bytes i) as [b|] eqn:E.
    + apply nth_error_skipn in E as (t & E1 & E2).
      destruct (Z.eqb_spec b s) as [-> | Hne].
      * rewrite IH, E2, E1. split; intros (rest & H).
        -- exists rest. now rewrite H.
        -- injection H as H. now exists rest.
      * split; [discriminate|]. intros (rest & H). rewrite E1 in H. congruence.
    + split; [discriminate|]. intros (rest & H).
      assert (X : nth_error bytes i = Some s)
        by (apply nth_error_skipn; exists (sig ++ rest)%list;
            split; [exact H|];
            change (S i) with (1 + i)%nat; rewrite <- skipn_skipn, H; reflexivity).
      congruence.
Qed.

(** X17.  [checkFileMagicNumbers] refuses a file exactly when it has at
    least four bytes and begins with one of the six signatures.  A shorter
    file always passes, the two bytes of a DOS executable included; and
    for files of four bytes or more the verdict rests on the first seven
    bytes alone. *)
Theorem checkFileMagicNumbers_prefix (bytes : list Z) :
  (checkFileMagicNumbers bytes = true
   <-> (4 <= List.length bytes)%nat
       /\ exists sig rest, In sig (map fst signatures) /\ bytes = (sig ++ rest)%list)
  /\ forall other,
       (4 <= List.length bytes)%nat -> (4 <= List.length other)%nat ->
       firstn 7 other = firstn 7 bytes ->
       checkFileMagicNumbers other = checkFileMagicNumbers bytes.
Proof.
  assert (char : forall b,
             checkFileMagicNumbers b = true
             <-> (4 <= List.length b)%nat
                 /\ exists sig rest, In sig (map fst signatures) /\ b = (sig ++ rest)%list).
  { intros b. unfold checkFileMagicNumbers.
    destruct (Nat.ltb_spec (List.length b) 4) as [Hl | Hl].
    - split; [discriminate | intros [H _]; lia].
    - rewrite existsb_exists. split.
      + intros (sg & Hin & H). split; trivial.
        apply signature_matches_prefix in H as (rest & H).
        exists (fst sg), rest. split; [now apply in_map | exact H].
      + intros (_ & sig & rest & Hin & ->).
        apply in_map_iff in Hin as (sg & <- & Hin).
        exists sg. split; trivial.
        apply signature_matches_prefix. now exists rest. }
  split; [apply char|].
  assert (short : forall sig, In sig (map fst signatures) -> (List.length sig <= 7)%nat).
  { intros sig H. simpl in H.
    repeat (destruct H as [<- | H]; [simpl; lia|]). contradiction. }
  assert (move : forall a b,
             (4 <= List.length a)%nat -> (4 <= List.length b)%nat ->
             firstn 7 a = firstn 7 b ->
             checkFileMagicNumbers a = true -> checkFileMagicNumbers b = true).
  { intros a b Ha Hb E H. apply char in H as (_ & sig & rest & Hin & ->).
    apply char. split; trivial.
    exists sig, (skipn (List.length sig) b). split; trivial.
    rewrite <- (firstn_skipn (List.length sig) b) at 1. f_equal.
    pose proof (short sig Hin) as Hs.
    replace (List.length sig) with (Nat.min (List.length sig) 7) at 1 by lia.
    rewrite <- firstn_firstn, <- E, firstn_firstn.
    replace (Nat.min (List.length sig) 7) with (List.length sig) by lia.
    rewrite firstn_app, Nat.sub_diag, firstn_all. simpl. apply app_nil_r. }
  intros other Hb Ho E.
  destruct (checkFileMagicNumbers bytes) eqn:B.
  - now apply (move bytes other).
  - destruct (checkFileMagicNumbers other) eqn:O; trivial.
    rewrite <- B. symmetry. now apply (move other bytes).
Qed.

Lemma last_app_nonempty {A} (l1 l2 : list A) (d : A) :
  l2 <> [] -> last (l1 ++ l2) d = last l2 d.
Proof.
  intros H. induction l1 as [|x l1 IH]; simpl; trivial.
  destruct (l1 ++ l2)%list eqn:E; trivial.
  apply app_eq_nil in E as [_ E]. contradiction.
Qed.

Lemma split_nonempty (sep : ascii) (s : string) : split sep s <> [].
Proof.
  destruct s as [|c s]; simpl; [discriminate|].
  destruct (Ascii.eqb c sep); [discriminate|].
  destruct (split sep s); discriminate.
Qed.

Lemma split_without_separator (sep : ascii) (e : string) :
  string_forall (fun c => negb (Ascii.eqb c sep)) e = true -> split sep e = [e].
Proof.
  induction e as [|c e IH]; simpl; trivial.
  intros H. apply andb_true_iff in H as [Hc H].
  apply negb_true_iff in Hc. now rewrite Hc, IH.
Qed.

Lemma split_at_separator (sep : ascii) (p rest : string) :
  exists x xs, split sep (p ++ String sep rest) = x :: (xs ++ split sep rest)%list.
Proof.
  induction p as [|c p (x & xs & IH)]; simpl.
  - rewrite Ascii.eqb_refl. now exists EmptyString, [].
  - destruct (Ascii.eqb c sep).
    + rewrite IH. now exists EmptyString, (x :: xs).
    + rewrite IH. now exists (String c x), xs.
Qed.

Lemma last_segment (p e : string) :
  string_forall not_dot e = true ->
  last (split "."%char (p ++ "." ++ e)) EmptyString = e
  /\ last (split "."%char e) EmptyString = e.
Proof.
  intros He. pose proof (split_without_separator "."%char e He) as S.
  split; [|now rewrite S].
  destruct (split_at_separator "."%char p e) as (x & xs & E).
  change (p ++ "." ++ e) with (p ++ String "."%char e). rewrite E, S.
  change (x :: (xs ++ [e])%list) with ((x :: xs) ++ [e])%list.
  now rewrite last_app_nonempty.
Qed.

(** X18.  The extension check looks at the last dot-separated part of the
    name and at nothing else, with upper and lower case alike: whatever
    stands before the last dot does not change the verdict, and a name
    without any dot is judged whole.  A name is refused exactly when that
    last part, in lower case, is one of the ten listed extensions; a name
    that ends in a dot passes. *)
Theorem extension_by_last_segment (p e : string) :
  string_forall not_dot e = true ->
  fileExtension (p ++ "." ++ e) = "." ++ toLowerCase e
  /\ fileExtension e = "." ++ toLowerCase e
  /\ extension_blocked (p ++ "." ++ e) = extension_blocked e
  /\ (extension_blocked e = true
      <-> In (toLowerCase e)
             ["exe"; "bat"; "cmd"; "sh"; "app"; "deb"; "rpm"; "msi"; "com"; "scr"])
  /\ extension_blocked (p ++ ".") = false.
Proof.
  intros He. destruct (last_segment p e He) as [L1 L2].
  assert (F1 : fileExtension (p ++ "." ++ e) = "." ++ toLowerCase e)
    by (unfold fileExtension; now rewrite L1).
  assert (F2 : fileExtension e = "." ++ toLowerCase e)
    by (unfold fileExtension; now rewrite L2).
  split; [exact F1|]. split; [exact F2|]. split; [|split].
  - unfold extension_blocked. now rewrite F1, F2.
  - unfold extension_blocked. rewrite F2. simpl.
    rewrite !orb_true_iff, !String.eqb_eq. intuition congruence.
  - destruct (last_segment p EmptyString eq_refl) as [L _].
    unfold extension_blocked, fileExtension.
    change (p ++ ".") with (p ++ "." ++ ""). now rewrite L.
Qed.

(** The name [REPORT.v2.Exe]. *)
Lemma extension_by_last_segment_witness :
  fileExtension ("REPORT.v2" ++ "." ++ "Exe") = "." ++ toLowerCase "Exe"
  /\ fileExtension "Exe" = "." ++ toLowerCase "Exe"
  /\ extension_blocked ("REPORT.v2" ++ "." ++ "Exe") = extension_blocked "Exe"
  /\ (extension_blocked "Exe" = true
      <-> In (toLowerCase "Exe")
             ["exe"; "bat"; "cmd"; "sh"; "app"; "deb"; "rpm"; "msi"; "com"; "scr"])
  /\ extension_blocked ("REPORT.v2" ++ ".") = false.
Proof.
  apply (extension_by_last_segment "REPORT.v2" "Exe"). reflexivity.
Defined.

(** ** The share token *)

Lemma concat_empty_separator (x : string) (l : list string) :
  String.concat "" (x :: l) = x ++ String.concat "" l.
Proof.
  destruct l as [|y l]; simpl; [now rewrite string_append_nil_r | reflexivity].
Qed.

Lemma hex_of_byte (b : Z) :
  is_byte b ->
  padStart2 (toString16 b)
  = String (hex_digit (b / 16)) (String (hex_digit (b mod 16)) EmptyString).
Proof.
  intros Hb. unfold toString16. destruct (Z.ltb_spec b 16) as [H | H].
  - unfold is_byte in Hb.
    rewrite Z.div_small, Z.mod_small by lia. reflexivity.
  - reflexivity.
Qed.

Lemma shareToken_of_cons (b : Z) (l : list Z) :
  is_byte b ->
  shareToken_of (b :: l)
  = String (hex_digit (b / 16)) (String (hex_digit (b mod 16)) (shareToken_of l)).
Proof.
  intros Hb. unfold shareToken_of. cbn [map].
  rewrite concat_empty_separator, (hex_of_byte b Hb). reflexivity.
Qed.

Lemma hex_digit_cases (n : Z) :
  0 <= n < 16 ->
  In (hex_digit n)
     ["0"; "1"; "2"; "3"; "4"; "5"; "6"; "7"; "8"; "9";
      "a"; "b"; "c"; "d"; "e"; "f"]%char.
Proof.
  intros H. unfold hex_digit. apply nth_In. simpl. lia.
Qed.

Lemma hex_digit_injective (n m : Z) :
  0 <= n < 16 -> 0 <= m < 16 -> hex_digit n = hex_digit m -> n = m.
Proof.
  intros Hn Hm E. unfold hex_digit in E.
  assert (Z.to_nat n = Z.to_nat m); [|lia].
  apply (proj1 (NoDup_nth _ "0"%char)) in E; trivial.
  - repeat constructor; simpl; intuition discriminate.
  - simpl. lia.
  - simpl. lia.
Qed.

(** X19.  The share token is the lower-case hexadecimal text of the random
    bytes: two characters for every byte, so 64 for the 32 bytes the form
    draws, each of them one of 0-9 and a-f; and different byte arrays give
    different tokens. *)
Theorem shareToken_of_hex (tokenArray : list Z) :
  Forall is_byte tokenArray ->
  String.length (shareToken_of tokenArray) = (2 * List.length tokenArray)%nat
  /\ string_forall
       (fun c => existsb (Ascii.eqb c)
                   ["0"; "1"; "2"; "3"; "4"; "5"; "6"; "7"; "8"; "9";
                    "a"; "b"; "c"; "d"; "e"; "f"]%char)
       (shareToken_of tokenArray) = true
  /\ forall other,
       Forall is_byte other ->
       shareToken_of other = shareToken_of tokenArray -> other = tokenArray.
Proof.
  intros H. split; [|split].
  - induction H as [|b l Hb H IH]; [reflexivity|].
    rewrite (shareToken_of_cons b l Hb). cbn [String.length List.length].
    rewrite IH. lia.
  - induction H as [|b l Hb H IH]; [reflexivity|].
    rewrite (shareToken_of_cons b l Hb). cbn [string_forall]. rewrite IH.
    assert (ok : forall n, 0 <= n < 16 ->
                   existsb (Ascii.eqb (hex_digit n))
                     ["0"; "1"; "2"; "3"; "4"; "5"; "6"; "7"; "8"; "9";
                      "a"; "b"; "c"; "d"; "e"; "f"]%char = true).
    { intros n Hn. apply existsb_exists. exists (hex_digit n).
      split; [now apply hex_digit_cases | apply Ascii.eqb_refl]. }
    unfold is_byte in Hb.
    rewrite (ok (b / 16)), (ok (b mod 16)); trivial.
    + apply Z.mod_pos_bound. lia.
    + split; [apply Z.div_pos; lia | apply Z.div_lt_upper_bound; lia].
  - induction H as [|b l Hb H IH]; intros other Ho E.
    + destruct Ho as [|c o Hc Ho]; trivial.
      rewrite (shareToken_of_cons c o Hc) in E. discriminate.
    + destruct Ho as [|c o Hc Ho].
      * rewrite (shareToken_of_cons b l Hb) in E. discriminate.
      * rewrite (shareToken_of_cons b l Hb), (shareToken_of_cons c o Hc) in E.
        injection E as E1 E2 E3. unfold is_byte in Hb, Hc.
        apply hex_digit_injective in E1;
          [|split; [apply Z.div_pos; lia | apply Z.div_lt_upper_bound; lia]
           |split; [apply Z.div_pos; lia | apply Z.div_lt_upper_bound; lia]].
        apply hex_digit_injective in E2;
          [|apply Z.mod_pos_bound; lia | apply Z.mod_pos_bound; lia].
        f_equal; [|now apply IH].
        rewrite (Z.div_mod c 16), (Z.div_mod b 16) by lia. now rewrite E1, E2.
Qed.

(** Three bytes, one of them below 16. *)
Lemma shareToken_of_hex_witness :
  String.length (shareToken_of [0; 10; 255]) = (2 * List.length [0; 10; 255])%nat
  /\ string_forall
       (fun c => existsb (Ascii.eqb c)
                   ["0"; "1"; "2"; "3"; "4"; "5"; "6"; "7"; "8"; "9";
                    "a"; "b"; "c"; "d"; "e"; "f"]%char)
       (shareToken_of [0; 10; 255]) = true
  /\ forall other,
       Forall is_byte other ->
       shareToken_of other = shareToken_of [0; 10; 255] -> other = [0; 10; 255].
Proof.
  apply (shareToken_of_hex [0; 10; 255]).
  repeat constructor; unfold is_byte; lia.
Defined.

(** ** The download page *)

Lemma render_metadata (now_ms : Z) (linkData : share_link_info) :
  render (inr (metadata_of now_ms linkData))
  = if no_longer_valid now_ms linkData
    then InvalidLinkCard "This download link is invalid or has been revoked"
    else DownloadCard.
Proof.
  unfold render, metadata_of, no_longer_valid, limitReached.
  cbn [fm_isValid fm_isExpired fm_remainingDownloads].
  destruct (sli_is_active linkData); cbn [negb andb orb]; trivial.
  destruct (isExpired now_ms linkData); cbn [negb andb orb]; trivial.
  destruct (sli_max_downloads linkData) as [m|]; cbn [negb andb orb le_0]; trivial.
  destruct (Z.eqb_spec m 0); cbn [negb andb orb le_0]; trivial.
  destruct (Z.leb_spec m (sli_current_downloads linkData)); cbn [negb andb orb]; trivial.
  unfold max_0, le_0.
  destruct (Z.leb_spec (Z.max 0 (m - sli_current_downloads linkData)) 0); trivial. lia.
Qed.

(** X20.  What the download page shows once it has loaded.  It never shows
    the "Link Expired" card: a link that has expired or is used up gets the
    "Invalid Link" card.  It offers the download exactly when the page has
    a token, the lookup returned a row, and that row passes the check the
    edge function makes, read at the page's clock; so for a row looked up
    at that same instant it always offers the download. *)
Theorem page_on_load (now_ms : Z) (token : option string)
    (shareLink : list share_link_info) :
  (forall text, render (fetchFileData now_ms token shareLink) <> LinkExpiredCard text)
  /\ (render (fetchFileData now_ms token shareLink) = DownloadCard
      <-> exists t linkData rest,
            token = Some t /\ truthy t = true /\ shareLink = linkData :: rest
            /\ no_longer_valid now_ms linkData = false)
  /\ (forall now t d,
         token = Some t -> truthy t = true -> now_ms = js_Date now ->
         shareLink = get_share_link_by_token now t d -> shareLink <> [] ->
         render (fetchFileData now_ms token shareLink) = DownloadCard).
Proof.
  assert (cases :
            (exists text, fetchFileData now_ms token shareLink = inl text)
            \/ exists t linkData rest,
                 token = Some t /\ truthy t = true /\ shareLink = linkData :: rest
                 /\ fetchFileData now_ms token shareLink
                    = inr (metadata_of now_ms linkData)).
  { unfold fetchFileData. destruct token as [t|]; [|left; eexists; reflexivity].
    destruct (truthy t) eqn:T; cbn [negb]; [|left; eexists; reflexivity].
    destruct shareLink as [|linkData rest]; [left; eexists; reflexivity|].
    right. exists t, linkData, rest. auto. }
  split; [|split].
  - intros text.
    destruct cases as [(e & ->) | (t & linkData & rest & _ & _ & _ & ->)];
      [discriminate|].
    rewrite render_metadata. destruct (no_longer_valid now_ms linkData); discriminate.
  - split.
    + intros H.
      destruct cases as [(e & E) | (t & linkData & rest & Ht & Htr & Hs & E)];
        rewrite E in H; [discriminate|].
      rewrite render_metadata in H.
      exists t, linkData, rest. repeat split; trivial.
      destruct (no_longer_valid now_ms linkData); [discriminate | reflexivity].
    + intros (t & linkData & rest & -> & Htr & -> & Hv).
      unfold fetchFileData. rewrite Htr. cbn [negb].
      now rewrite render_metadata, Hv.
  - intros now t d -> Htr -> -> Hne.
    destruct (get_share_link_by_token now t d) as [|linkData rest] eqn:L;
      [contradiction|].
    unfold fetchFileData. rewrite Htr. cbn [negb]. rewrite render_metadata.
    assert (Hin : In linkData (get_share_link_by_token now t d))
      by (rewrite L; now left).
    apply get_share_link_by_token_in in Hin as (sl & f & _ & _ & _ & _ & Hu & ->).
    now rewrite (recheck_of_usable now sl f Hu).
Qed.

Lemma iter_after_download (k : nat) (fd : FileMetadata) :
  fm_isValid (Nat.iter k after_download fd) = fm_isValid fd
  /\ fm_isExpired (Nat.iter k after_download fd) = fm_isExpired fd
  /\ fm_currentDownloads (Nat.iter k after_download fd)
     = fm_currentDownloads fd + Z.of_nat k
  /\ fm_remainingDownloads (Nat.iter k after_download fd)
     = match fm_remainingDownloads fd with
       | Num r => Num (if Nat.eqb k 0 then r else Z.max 0 (r - Z.of_nat k))
       | Infinity => Infinity
       end.
Proof.
  induction k as [|k (I1 & I2 & I3 & I4)].
  - simpl. repeat split; [lia|]. now destruct (fm_remainingDownloads fd).
  - rewrite Nat.iter_succ.
    set (prev := Nat.iter k after_download fd) in *.
    unfold after_download.
    cbn [fm_isValid fm_isExpired fm_currentDownloads fm_remainingDownloads].
    rewrite I1, I2, I3, I4. repeat split; [lia|].
    destruct (fm_remainingDownloads fd) as [r|]; [|reflexivity].
    cbn [max_0 minus_1 Nat.eqb]. f_equal.
    destruct (Nat.eqb_spec k 0); lia.
Qed.

(** X21.  The page counts its own downloads.  After [k] downloads made
    from a page that offered the download, the count it shows is [k]
    higher; with a ceiling [m] it goes on offering the download while
    fewer than [m] minus the loaded count have been made and then shows
    "This download link has reached its maximum number of downloads";
    without a ceiling it goes on offering the download. *)
Theorem page_after_downloads (now_ms : Z) (linkData : share_link_info) (k : nat) :
  no_longer_valid now_ms linkData = false ->
  fm_currentDownloads (Nat.iter k after_download (metadata_of now_ms linkData))
  = sli_current_downloads linkData + Z.of_nat k
  /\ render (inr (Nat.iter k after_download (metadata_of now_ms linkData)))
     = match sli_max_downloads linkData with
       | Some m =>
           if m =? 0 then DownloadCard
           else if m - sli_current_downloads linkData <=? Z.of_nat k
                then LinkExpiredCard
                       "This download link has reached its maximum number of downloads"
                else DownloadCard
       | None => DownloadCard
       end.
Proof.
  intros Hv.
  destruct (iter_after_download k (metadata_of now_ms linkData)) as (I1 & I2 & I3 & I4).
  split; [exact I3|].
  unfold render. rewrite I1, I2, I4.
  unfold no_longer_valid, limitReached in Hv.
  apply orb_false_iff in Hv as [Hv Hl]. apply orb_false_iff in Hv as [Ha He].
  apply negb_false_iff in Ha.
  unfold metadata_of, limitReached.
  cbn [fm_isValid fm_isExpired fm_remainingDownloads].
  rewrite Ha, He. cbn [negb andb orb].
  destruct (sli_max_downloads linkData) as [m|]; [|reflexivity].
  destruct (Z.eqb_spec m 0); [reflexivity|].
  rewrite Hl. cbn [negb andb orb max_0 le_0].
  apply Z.leb_gt in Hl.
  destruct (Nat.eqb_spec k 0) as [-> | Hk].
  - replace (Z.max 0 (m - sli_current_downloads linkData) <=? 0) with false
      by (symmetry; apply Z.leb_gt; lia).
    replace (m - sli_current_downloads linkData <=? Z.of_nat 0) with false
      by (symmetry; apply Z.leb_gt; simpl; lia).
    reflexivity.
  - destruct (Z.leb_spec (m - sli_current_downloads linkData) (Z.of_nat k)).
    + replace (Z.max 0 (Z.max 0 (m - sli_current_downloads linkData) - Z.of_nat k) <=? 0)
        with true by (symmetry; apply Z.leb_le; lia).
      reflexivity.
    + replace (Z.max 0 (Z.max 0 (m - sli_current_downloads linkData) - Z.of_nat k) <=? 0)
        with false by (symmetry; apply Z.leb_gt; lia).
      reflexivity.
Qed.

(** The one-download link: offered on load, closed after one download. *)
Lemma page_after_downloads_witness :
  fm_currentDownloads
    (Nat.iter 1 after_download (metadata_of 1 (join_row link_once sample_file)))
  = sli_current_downloads (join_row link_once sample_file) + Z.of_nat 1
  /\ render (inr (Nat.iter 1 after_download
                    (metadata_of 1 (join_row link_once sample_file))))
     = match sli_max_downloads (join_row link_once sample_file) with
       | Some m =>
           if m =? 0 then DownloadCard
           else if m - sli_current_downloads (join_row link_once sample_file) <=? Z.of_nat 1
                then LinkExpiredCard
                       "This download link has reached its maximum number of downloads"
                else DownloadCard
       | None => DownloadCard
       end.
Proof.
  apply (page_after_downloads 1 (join_row link_once sample_file) 1). reflexivity.
Defined.

(** ** The time a link has left *)

Lemma not_Expired (s : string) : s ++ "m" <> "Expired".
Proof.
  do 7 (destruct s as [|? s]; [discriminate|]).
  simpl. intros H. inversion H as [[E1 E2 E3 E4 E5 E6 E7 E8]].
  destruct s; discriminate.
Qed.

(** X22.  [formatTimeRemaining] says "Expired" exactly when the expiry is
    not after the present.  Otherwise it shows whole hours and whole
    minutes below sixty that never overstate the time left and fall short
    of it by less than a minute, and it leaves the hours out when there is
    none; under a minute it shows 0m. *)
Theorem formatTimeRemaining_rounds_down (now expiry : Z) :
  (formatTimeRemaining now expiry = "Expired" <-> expiry <= now)
  /\ (now < expiry ->
      exists hours minutes,
        0 <= hours /\ 0 <= minutes < 60
        /\ hours * 3600000 + minutes * 60000 <= expiry - now
           < hours * 3600000 + (minutes + 1) * 60000
        /\ formatTimeRemaining now expiry
           = if 0 <? hours then decimal hours ++ "h " ++ decimal minutes ++ "m"
             else decimal minutes ++ "m").
Proof.
  unfold formatTimeRemaining. cbv zeta.
  change (1000 * 60 * 60) with 3600000. change (1000 * 60) with 60000.
  split.
  - destruct (Z.leb_spec (expiry - now) 0) as [H | H].
    + split; [lia | reflexivity].
    + split; [|lia]. intros E. exfalso. revert E.
      destruct (0 <? (expiry - now) / 3600000).
      * rewrite <- !string_append_assoc. apply not_Expired.
      * apply not_Expired.
  - intros H. replace (expiry - now <=? 0) with false by (symmetry; apply Z.leb_gt; lia).
    exists ((expiry - now) / 3600000), ((expiry - now) mod 3600000 / 60000).
    pose proof (Z.div_mod (expiry - now) 3600000 ltac:(lia)) as D1.
    pose proof (Z.mod_pos_bound (expiry - now) 3600000 ltac:(lia)) as B1.
    pose proof (Z.div_mod ((expiry - now) mod 3600000) 60000 ltac:(lia)) as D2.
    pose proof (Z.mod_pos_bound ((expiry - now) mod 3600000) 60000 ltac:(lia)) as B2.
    assert (0 <= (expiry - now) / 3600000) by (apply Z.div_pos; lia).
    assert (0 <= (expiry - now) mod 3600000 / 60000) by (apply Z.div_pos; lia).
    assert ((expiry - now) mod 3600000 / 60000 < 60)
      by (apply Z.div_lt_upper_bound; lia).
    repeat split; try lia.
Qed.

(** Ninety minutes and a half. *)
Lemma formatTimeRemaining_rounds_down_witness :
  exists hours minutes,
    0 <= hours /\ 0 <= minutes < 60
    /\ hours * 3600000 + minutes * 60000 <= 5430000 - 0
       < hours * 3600000 + (minutes + 1) * 60000
    /\ formatTimeRemaining 0 5430000
       = if 0 <? hours then decimal hours ++ "h " ++ decimal minutes ++ "m"
         else decimal minutes ++ "m".
Proof.
  apply (proj2 (formatTimeRemaining_rounds_down 0 5430000)). lia.
Defined.
